(** * The crawl-and-rank engine of [complete_crawler.py]

    A shallow embedding of [CompleteCrawler] (URL classifier, politeness-aware
    fetcher, sitemap reader, link extractor, crawl scheduler, relevance
    scorer) and of [find_policy_links], followed by the properties of the
    engine.

    Conventions of the embedding.
    - Python [str] values are [string]s; [str.lower] acts on the ASCII
      letters, other characters are left as they are.
    - Python [set]s are [gset string]; the order in which a set is iterated
      is a parameter of the model (any enumeration of its elements).
    - Delays and clock readings are integers of [Z] (seconds): every delay
      the code stores is an integer value ([2.0], [5.0], [30.0], a doubled
      delay or a parsed [Retry-After]).
    - The network, the clock and the library parsers (lxml, gzip, urljoin)
      are parameters gathered in the record [env]. *)

From stdpp Require Import base gmap sets list strings sorting.
From Stdlib Require Import ZArith Lia Ascii String.

Local Open Scope string_scope.
Local Open Scope Z_scope.

#[local] Set Warnings "-clear-no-such-hyp".

(** ** Python string operations *)

Module Py.

Definition code (c : ascii) : nat := nat_of_ascii c.

(** [c.lower()] on one character. *)
Definition lower_char (c : ascii) : ascii :=
  if (Nat.leb 65 (code c) && Nat.leb (code c) 90)%bool
  then ascii_of_nat (code c + 32) else c.

(** [s.lower()] *)
Fixpoint lower (s : string) : string :=
  match s with
  | EmptyString => EmptyString
  | String c s' => String (lower_char c) (lower s')
  end.

(** [s.startswith(p)] *)
Fixpoint startswith (s p : string) : bool :=
  match p, s with
  | EmptyString, _ => true
  | String a p', String b s' => if Ascii.eqb a b then startswith s' p' else false
  | String _ _, EmptyString => false
  end.

(** [kw in s] on strings: [kw] occurs as a contiguous substring of [s]. *)
Fixpoint contains (s kw : string) : bool :=
  startswith s kw ||
  match s with
  | EmptyString => false
  | String _ s' => contains s' kw
  end.

(** [any(p in s for p in ps)] *)
Definition any_in (ps : list string) (s : string) : bool :=
  existsb (contains s) ps.

(** [c in s] for a character. *)
Fixpoint has_char (c : ascii) (s : string) : bool :=
  match s with
  | EmptyString => false
  | String b s' => Ascii.eqb c b || has_char c s'
  end.

Fixpoint rev_acc (s acc : string) : string :=
  match s with
  | EmptyString => acc
  | String c s' => rev_acc s' (String c acc)
  end.
Definition rev (s : string) : string := rev_acc s EmptyString.

(** [s.endswith(p)] *)
Definition endswith (s p : string) : bool := startswith (rev s) (rev p).

(** The whitespace of [str.strip()] and [int()], ASCII part: tab, LF, VT,
    FF, CR, FS, GS, RS, US and space. *)
Definition is_space (c : ascii) : bool :=
  let n := code c in
  ((Nat.leb 9 n && Nat.leb n 13) || (Nat.leb 28 n && Nat.leb n 32))%bool.

Fixpoint lstrip (s : string) : string :=
  match s with
  | String c s' => if is_space c then lstrip s' else s
  | EmptyString => EmptyString
  end.
Definition rstrip (s : string) : string := rev (lstrip (rev s)).
(** [s.strip()] *)
Definition strip (s : string) : string := rstrip (lstrip s).

(** [s.split(c, 1)]: the part before the first [c] and, when there is
    one, the part after it. *)
Fixpoint split1 (c : ascii) (s : string) : string * option string :=
  match s with
  | EmptyString => (EmptyString, None)
  | String b s' =>
      if Ascii.eqb c b then (EmptyString, Some s')
      else let '(h, t) := split1 c s' in (String b h, t)
  end.

(** The line boundaries of [str.splitlines()], ASCII part. *)
Definition is_linebreak (c : ascii) : bool :=
  let n := code c in
  ((Nat.leb 10 n && Nat.leb n 13) || (Nat.leb 28 n && Nat.leb n 30))%bool.

(** [s.splitlines()]: [cur] is the line being read, reversed. *)
Fixpoint splitlines_aux (s cur : string) : list string :=
  match s with
  | EmptyString =>
      match cur with EmptyString => [] | _ => [rev cur] end
  | String c s' =>
      if is_linebreak c then
        match c, s' with
        | "013"%char, String "010"%char s'' => rev cur :: splitlines_aux s'' EmptyString
        | _, _ => rev cur :: splitlines_aux s' EmptyString
        end
      else splitlines_aux s' (String c cur)
  end.
Definition splitlines (s : string) : list string := splitlines_aux s EmptyString.

(** [bool(s)] of a string: non-empty. *)
Definition truthy (s : string) : bool :=
  match s with EmptyString => false | _ => true end.

(** Comparison of strings as Python compares them, character code by
    character code, a proper prefix being smaller. *)
Fixpoint str_le (s t : string) : bool :=
  match s, t with
  | EmptyString, _ => true
  | String _ _, EmptyString => false
  | String a s', String b t' =>
      if Nat.ltb (code a) (code b) then true
      else if Nat.ltb (code b) (code a) then false
      else str_le s' t'
  end.

End Py.

(** ** The keyword tables *)

Definition KEYWORDS_PRIMARY : list string :=
  [ "shipping"; "delivery"; "returns"; "return"; "refund"; "exchange"; "exchanges";
    "warranty"; "guarantee"; "shipping-policy"; "return-policy"; "shipping-info" ].

Definition KEYWORDS_SECONDARY : list string :=
  [ "policy"; "policies"; "help"; "support"; "faq"; "faqs"; "customer-service";
    "customer-care"; "care"; "assistance"; "contact"; "about" ].

Definition PATH_KEYWORDS : list string :=
  [ "return-policy"; "returns-policy"; "shipping-policy"; "delivery-policy";
    "how-to-return"; "howtoreturn"; "returns-exchanges"; "shipping-delivery";
    "help-center"; "customer-care"; "customer-service"; "support-center" ].

Definition NOISE_PATTERNS : list string :=
  [ "/products/"; "/product/"; "/collections/"; "/cart"; "/checkout";
    "/search"; "/account"; "/signin"; "/login"; "/signup"; "/register";
    "/blogs/"; "/blog/"; "/news/"; "/press/"; "?"; "#"; "/archive/" ].

Definition NON_EN_LOCALES : list string :=
  [ "/fr/"; "/es/"; "/de/"; "/it/"; "/jp/"; "/zh/"; "/pt/"; "/ru/";
    "/mx/"; "/cl/"; "/cr/"; "/ar/"; "/br/"; "/co/"; "/pe/"; "/uy/";
    "/ve/"; "/uk/"; "/tr/"; "/kz/"; "/kh/"; "/nl/"; "/sv/"; "/da/" ].

Definition us_patterns : list string :=
  [ "/us/"; "/en-us/"; "/us-en/"; "/en_us/"; "/us_en/" ].

Definition non_us_patterns : list string :=
  [ "/en-gb/"; "/en-au/"; "/en-ca/"; "/en-nz/"; "/en-eu/";
    "/en-it/"; "/en-ch/"; "/gb/"; "/au/"; "/ca/"; "/nz/";
    "/fr/"; "/fr-"; "/de/"; "/es/"; "/it/"; "/pt/"; "/ru/";
    "/zh/"; "/jp/"; "/kr/"; "/mx/"; "/br/"; "/ar/"; "/in/" ].

Definition POLICY_PATHS : list string :=
  [ "/pages/"; "/help/"; "/support/"; "/policies/" ].

(** ** Relevance scorer *)

(** [for kw in kws: if kw in url_lower: score += w] *)
Definition add_matches (w : Z) (kws : list string) (url_lower : string) (score : Z) : Z :=
  fold_left (fun sc kw => if Py.contains url_lower kw then sc + w else sc) kws score.

(** [CompleteCrawler.score_url] *)
Definition score_url (url : string) : Z :=
  let url_lower := Py.lower url in
  let score := 0 in
  let score := add_matches 5 KEYWORDS_PRIMARY url_lower score in
  let score := add_matches 3 KEYWORDS_SECONDARY url_lower score in
  let score := add_matches 4 PATH_KEYWORDS url_lower score in
  let score := if Py.any_in POLICY_PATHS url_lower then score + 2 else score in
  let score :=
    if (Py.contains url_lower "/us/" || Py.contains url_lower "/en-us/")%bool
    then score + 3 else score in
  let score := add_matches (-2) NOISE_PATTERNS url_lower score in
  Z.max 0 score.

(** The terms of the score, list by list, for inspection. *)
Definition matches (kws : list string) (url : string) : list string :=
  filter (fun kw => Py.contains (Py.lower url) kw = true) kws.


(** ** Library functions the crawler calls *)

(** [int(s)] on a string: surrounding whitespace is dropped, a sign is
    allowed, the digits may be grouped by single underscores.  [None] stands
    for [ValueError]. *)
Module PyInt.

Definition digit_val (c : ascii) : option Z :=
  let n := Py.code c in
  if (Nat.leb 48 n && Nat.leb n 57)%bool then Some (Z.of_nat (n - 48)) else None.

(** [after_digit] tells whether the previous character was a digit. *)
Fixpoint digits (s : string) (acc : Z) (after_digit : bool) : option Z :=
  match s with
  | EmptyString => if after_digit then Some acc else None
  | String c s' =>
      match digit_val c with
      | Some d => digits s' (10 * acc + d) true
      | None =>
          if (Ascii.eqb c "_" && after_digit)%bool then digits s' acc false else None
      end
  end.

Definition int (s : string) : option Z :=
  match Py.strip s with
  | String "+" r => digits r 0 false
  | String "-" r => Z.opp <$> digits r 0 false
  | t => digits t 0 false
  end.

End PyInt.

(** [urllib.parse]: [urlparse] and [urlunparse], after CPython's
    implementation.  [None] stands for the [ValueError] that [urlsplit]
    raises on a host with an unmatched square bracket. *)
Module Urllib.

Record parsed := Parsed {
  scheme : string; netloc : string; path : string;
  params : string; query : string; fragment : string }.

Definition is_alpha (c : ascii) : bool :=
  let n := Py.code c in
  ((Nat.leb 65 n && Nat.leb n 90) || (Nat.leb 97 n && Nat.leb n 122))%bool.
Definition is_digit (c : ascii) : bool :=
  let n := Py.code c in (Nat.leb 48 n && Nat.leb n 57)%bool.
(** [scheme_chars] *)
Definition is_scheme_char (c : ascii) : bool :=
  (is_alpha c || is_digit c || Ascii.eqb c "+" || Ascii.eqb c "-" || Ascii.eqb c ".")%bool.

Fixpoint all_chars (p : ascii -> bool) (s : string) : bool :=
  match s with
  | EmptyString => true
  | String c s' => p c && all_chars p s'
  end.

(** Leading C0 control characters and spaces are dropped. *)
Fixpoint lstrip_c0 (s : string) : string :=
  match s with
  | String c s' => if Nat.leb (Py.code c) 32 then lstrip_c0 s' else s
  | EmptyString => EmptyString
  end.

(** Tab, CR and LF are removed wherever they are. *)
Fixpoint remove_unsafe (s : string) : string :=
  match s with
  | EmptyString => EmptyString
  | String c s' =>
      let n := Py.code c in
      if (Nat.eqb n 9 || Nat.eqb n 10 || Nat.eqb n 13)%bool then remove_unsafe s'
      else String c (remove_unsafe s')
  end.

(** [scheme, url = url[:i].lower(), url[i+1:]] when the text before the
    first colon is a scheme. *)
Definition split_scheme (url : string) : string * string :=
  match Py.split1 ":" url with
  | (String c0 s0, Some rest) =>
      if (is_alpha c0 && all_chars is_scheme_char (String c0 s0))%bool
      then (Py.lower (String c0 s0), rest)
      else (EmptyString, url)
  | _ => (EmptyString, url)
  end.

(** [_splitnetloc(url, 2)], given the text after the two slashes: the
    host part ends at the first of [/], [?] and [#]. *)
Fixpoint splitnetloc (s : string) : string * string :=
  match s with
  | EmptyString => (EmptyString, EmptyString)
  | String c s' =>
      if (Ascii.eqb c "/" || Ascii.eqb c "?" || Ascii.eqb c "#")%bool
      then (EmptyString, s)
      else let '(h, t) := splitnetloc s' in (String c h, t)
  end.

Definition brackets_ok (host : string) : bool :=
  Bool.eqb (Py.has_char "[" host) (Py.has_char "]" host).

Definition split_opt (c : ascii) (s : string) : string * string :=
  match Py.split1 c s with
  | (h, Some t) => (h, t)
  | (h, None) => (h, EmptyString)
  end.

(** [urlsplit(url)] with [params] left empty. *)
Definition urlsplit (url : string) : option parsed :=
  let url := remove_unsafe (lstrip_c0 url) in
  let '(scheme, url) := split_scheme url in
  let '(netloc, url) :=
    match url with
    | String "/" (String "/" rest) => splitnetloc rest
    | _ => (EmptyString, url)
    end in
  if brackets_ok netloc then
    let '(url, fragment) := split_opt "#" url in
    let '(url, query) := split_opt "?" url in
    Some (Parsed scheme netloc url EmptyString query fragment)
  else None.

Definition uses_params : list string :=
  [ ""; "ftp"; "hdl"; "prospero"; "http"; "imap"; "https"; "shttp"; "rtsp";
    "rtspu"; "sip"; "sips"; "mms"; "sftp"; "tel" ].

Definition uses_netloc : list string :=
  [ ""; "ftp"; "http"; "gopher"; "nntp"; "telnet"; "imap"; "wais"; "file";
    "mms"; "https"; "shttp"; "snews"; "prospero"; "rtsp"; "rtspu"; "rsync";
    "svn"; "svn+ssh"; "sftp"; "nfs"; "git"; "git+ssh"; "ws"; "wss" ].

Definition mem (s : string) (l : list string) : bool := existsb (String.eqb s) l.

(** The path cut after its last [/] ([url.rfind('/')]): the text up to
    and including that slash, and the last segment. *)
Fixpoint rsplit_slash (s : string) : string * string :=
  match s with
  | EmptyString => (EmptyString, EmptyString)
  | String c s' =>
      if Py.has_char "/" s' then
        let '(pre, last) := rsplit_slash s' in (String c pre, last)
      else if Ascii.eqb c "/" then (String c EmptyString, s')
      else (EmptyString, s)
  end.

(** [_splitparams(url)]: the parameters start at the first [;] of the
    last path segment. *)
Definition splitparams (url : string) : string * string :=
  let '(pre, last) := rsplit_slash url in
  match Py.split1 ";" last with
  | (h, Some t) => (pre ++ h, t)
  | (_, None) => (url, EmptyString)
  end.

(** [urlparse(url)] *)
Definition urlparse (url : string) : option parsed :=
  match urlsplit url with
  | None => None
  | Some p =>
      if (mem (scheme p) uses_params && Py.has_char ";" (path p))%bool then
        let '(u, ps) := splitparams (path p) in
        Some (Parsed (scheme p) (netloc p) u ps (query p) (fragment p))
      else Some p
  end.

(** [urlunparse((scheme, netloc, url, params, query, fragment))] *)
Definition urlunparse (p : parsed) : string :=
  let url := if Py.truthy (params p) then path p ++ ";" ++ params p else path p in
  let url :=
    if (Py.truthy (netloc p) ||
        (Py.truthy (scheme p) && mem (scheme p) uses_netloc &&
         negb (Py.startswith url "//")))%bool
    then
      let url := if (Py.truthy url && negb (Py.startswith url "/"))%bool
                 then "/" ++ url else url in
      "//" ++ netloc p ++ url
    else url in
  let url := if Py.truthy (scheme p) then scheme p ++ ":" ++ url else url in
  let url := if Py.truthy (query p) then url ++ "?" ++ query p else url in
  if Py.truthy (fragment p) then url ++ "#" ++ fragment p else url.

End Urllib.


(** ** The session: environment, crawler object, effects *)

(** What [await client.get(url, follow_redirects=True)] yields: a response
    (status code, [Retry-After] header if any, [response.text],
    [response.content]) or an exception (time-out, connection error). *)
Inductive reply :=
  | Response (status_code : Z) (retry_after : option string)
             (text : string) (content : string)
  | Failure.

(** A parsed sitemap: the results of the two XPath queries of
    [process_sitemap], every [loc] text and the [loc] texts under a
    [sitemap] element. *)
Record xml := Xml { locs : list string; sitemap_locs : list string }.

(** The function whose body holds a call of [client.get]. *)
Inductive caller := FetchUrl | ProcessSitemap.

Inductive event :=
  | EvFetch (url : string)                 (* fetch_url(client, url) is entered *)
  | EvSleep (d : Z)                        (* await asyncio.sleep(d) *)
  | EvGet (who : caller) (url : string).   (* await client.get(url, ...) *)

(** Everything outside the program.  The network, the clock and the order
    in which a set is enumerated may change as the session proceeds: they
    are indexed by the number of events logged so far. *)
Record env := Env {
  net : nat -> string -> reply;
  clock : nat -> Z;                                (* time.time() *)
  set_order : nat -> gset string -> list string;   (* list(s), for u in s *)
  gunzip : string -> option string;                (* gzip.decompress *)
  xml_parse : string -> option xml;                (* etree.fromstring, xpath *)
  html_hrefs : string -> option (list string);     (* html.fromstring, .//a[@href] *)
  urljoin : string -> string -> option string;     (* urllib.parse.urljoin *)
  recursion_limit : nat                            (* nesting depth of calls *)
}.

(** An enumeration of a set lists each element once. *)
Definition fair_order (E : env) : Prop :=
  forall n (s : gset string), set_order E n s ≡ₚ elements s.

(** The [CompleteCrawler] object, with the log of the session. *)
Record crawler := Crawler {
  domain : string;
  max_pages : Z;
  found_urls : gset string;
  crawled_urls : gset string;
  policy_urls : list (Z * string);
  request_delays : gmap string Z;
  last_request_time : gmap string Z;
  trace : list event
}.

(** [self.base_url = f"https://{domain}"] *)
Definition base_url (self : crawler) : string := "https://" ++ domain self.

(** [CompleteCrawler(domain, max_pages)] *)
Definition init (domain : string) (max_pages : Z) : crawler :=
  Crawler domain max_pages ∅ ∅ [] ∅ ∅ [].

Definition set_found (f : gset string) (c : crawler) : crawler :=
  Crawler (domain c) (max_pages c) f (crawled_urls c) (policy_urls c)
          (request_delays c) (last_request_time c) (trace c).
Definition set_crawled (f : gset string) (c : crawler) : crawler :=
  Crawler (domain c) (max_pages c) (found_urls c) f (policy_urls c)
          (request_delays c) (last_request_time c) (trace c).
Definition set_policy (l : list (Z * string)) (c : crawler) : crawler :=
  Crawler (domain c) (max_pages c) (found_urls c) (crawled_urls c) l
          (request_delays c) (last_request_time c) (trace c).
Definition set_delays (d : gmap string Z) (c : crawler) : crawler :=
  Crawler (domain c) (max_pages c) (found_urls c) (crawled_urls c) (policy_urls c)
          d (last_request_time c) (trace c).
Definition set_last (t : gmap string Z) (c : crawler) : crawler :=
  Crawler (domain c) (max_pages c) (found_urls c) (crawled_urls c) (policy_urls c)
          (request_delays c) t (trace c).
Definition log (e : event) (c : crawler) : crawler :=
  Crawler (domain c) (max_pages c) (found_urls c) (crawled_urls c) (policy_urls c)
          (request_delays c) (last_request_time c) (trace c ++ [e]).

(** The result of a call: a value, or an exception on its way up. *)
Inductive outcome (A : Type) :=
  | Returned (a : A)
  | Raised.
Arguments Returned {A} a.
Arguments Raised {A}.

(** Computations on the crawler object that may raise. *)
Definition M (A : Type) : Type := crawler -> outcome A * crawler.

Definition ret {A} (a : A) : M A := fun c => (Returned a, c).
Definition bind {A B} (m : M A) (k : A -> M B) : M B :=
  fun c => match m c with
           | (Returned a, c') => k a c'
           | (Raised, c') => (Raised, c')
           end.
Definition raise {A} : M A := fun c => (Raised, c).
(** [try: m  except Exception: h] *)
Definition try_except {A} (m h : M A) : M A :=
  fun c => match m c with
           | (Raised, c') => h c'
           | r => r
           end.
Definition get {A} (f : crawler -> A) : M A := fun c => (Returned (f c), c).
Definition modify (f : crawler -> crawler) : M unit := fun c => (Returned tt, f c).
Definition of_option {A} (o : option A) : M A :=
  match o with Some a => ret a | None => raise end.

Declare Scope crawl_scope.
Delimit Scope crawl_scope with crawl.
Notation "'let*' x := m 'in' k" := (bind m (fun x => k))
  (at level 10, x name, m at level 100, k at level 200) : crawl_scope.
Notation "m >> k" := (bind m (fun _ => k))
  (at level 100, k at level 200, right associativity) : crawl_scope.
Local Open Scope crawl_scope.

Section Engine.

Variable E : env.

(** [time.time()] *)
Definition time_time : M Z := get (fun c => clock E (List.length (trace c))).

(** [await asyncio.sleep(d)] *)
Definition sleep (d : Z) : M unit := modify (log (EvSleep d)).

(** [await client.get(url, follow_redirects=True)]; a [Failure] raises. *)
Definition client_get (who : caller) (url : string) : M reply :=
  fun c =>
    let c' := log (EvGet who url) c in
    match net E (List.length (trace c)) url with
    | Failure => (Raised, c')
    | r => (Returned r, c')
    end.

(** *** URL classifier *)

Definition is_same_domain (self : crawler) (url : string) : bool :=
  match Urllib.urlparse url with
  | Some parsed => Py.contains (Py.lower (Urllib.netloc parsed)) (Py.lower (domain self))
  | None => false
  end.

Definition is_english_url (url : string) : bool :=
  negb (Py.any_in NON_EN_LOCALES (Py.lower url)).

Definition is_us_url (url : string) : bool :=
  let url_lower := Py.lower url in
  if Py.any_in us_patterns url_lower then true
  else if Py.any_in non_us_patterns url_lower then false
  else true.

Definition eligible (self : crawler) (url : string) : bool :=
  is_same_domain self url && is_english_url url && is_us_url url.

(** *** Politeness-aware fetcher *)

Definition status_of (r : reply) : Z :=
  match r with Response s _ _ _ => s | Failure => 0 end.
Definition text_of (r : reply) : string :=
  match r with Response _ _ t _ => t | Failure => EmptyString end.
Definition content_of (r : reply) : string :=
  match r with Response _ _ _ b => b | Failure => EmptyString end.
(** [response.headers.get('Retry-After')] *)
Definition retry_after_of (r : reply) : option string :=
  match r with Response _ h _ _ => h | Failure => None end.

(** The delay kept for a host, [self.request_delays.get(domain, dflt)]. *)
Definition delay_of (self : crawler) (host : string) (dflt : Z) : Z :=
  default dflt (request_delays self !! host).

(** The wait before a request (lines 158-165). *)
Definition politeness_wait (host : string) (current_time : Z) : M unit :=
  let* last := get (fun c => last_request_time c !! host) in
  match last with
  | Some t =>
      let time_since_last := current_time - t in
      let* min_delay := get (fun c => delay_of c host 2) in
      if time_since_last <? min_delay
      then sleep (min_delay - time_since_last)
      else ret tt
  | None => ret tt
  end.

(** The reaction to a 429 (lines 174-186). *)
Definition back_off (host : string) (response : reply) : M unit :=
  match retry_after_of response with
  | Some (String a v) =>
      let* delay := of_option (PyInt.int (String a v)) in
      modify (fun c => set_delays (<[host := Z.max delay 5]> (request_delays c)) c) >>
      sleep delay
  | _ =>
      let* d := get (fun c => delay_of c host 2) in
      let delay := Z.min (d * 2) 30 in
      modify (fun c => set_delays (<[host := delay]> (request_delays c)) c) >>
      sleep delay
  end.

(** The rate limiting before the request (lines 153-167); the result is
    the host, [domain] in the source.  [urlparse] is outside the [try]: its
    [ValueError] leaves [fetch_url]. *)
Definition rate_limit (url : string) : M string :=
  let* host := of_option (Urllib.netloc <$> Urllib.urlparse url) in
  let* current_time := time_time in
  politeness_wait host current_time >>
  let* t := time_time in
  modify (fun c => set_last (<[host := t]> (last_request_time c)) c) >>
  ret host.

(** The request and its single retry (lines 169-196). *)
Definition request (host url : string) : M (option string) :=
  try_except
    (let* response := client_get FetchUrl url in
     let* response :=
       if status_of response =? 429
       then back_off host response >> client_get FetchUrl url
       else ret response in
     if status_of response =? 200
     then ret (Some (text_of response))
     else ret None)
    (ret None).

(** [CompleteCrawler.fetch_url] *)
Definition fetch_url (url : string) : M (option string) :=
  modify (log (EvFetch url)) >>
  let* host := rate_limit url in
  request host url.

(** *** Sitemap reader *)

(** The loop over the [loc] texts (lines 248-251). *)
Definition add_locs (self : crawler) (ls : list string) (urls : gset string) : gset string :=
  fold_left
    (fun acc loc =>
       let url := Py.strip loc in
       if (Py.truthy url && eligible self url)%bool then acc ∪ {[url]} else acc)
    ls urls.

(** The loop over the nested sitemaps (lines 254-257); [rec] is the
    recursive call. *)
Fixpoint for_nested (rec : string -> gset string -> M (gset string))
    (sitemap_url : string) (ls : list string) (urls : gset string) : M (gset string) :=
  match ls with
  | [] => ret urls
  | sitemap_loc :: rest =>
      let nested_url := Py.strip sitemap_loc in
      if (Py.truthy nested_url && negb (String.eqb nested_url sitemap_url))%bool
      then let* urls := rec nested_url urls in for_nested rec sitemap_url rest urls
      else for_nested rec sitemap_url rest urls
  end.

(** [CompleteCrawler.process_sitemap].  The set [urls] is the caller's,
    updated in place; the model returns it.  [depth] bounds the nesting of
    the calls as the interpreter's recursion limit does: a call beyond it
    fails with [RecursionError], which the handler swallows like any other
    exception.  The body raises only before the first insertion (request,
    parse), so the handler finds [urls] as it was. *)
Fixpoint process_sitemap (depth : nat) (sitemap_url : string) (urls : gset string)
    : M (gset string) :=
  match depth with
  | O => ret urls
  | S depth' =>
      try_except
        (let* response := client_get ProcessSitemap sitemap_url in
         if negb (status_of response =? 200) then ret urls
         else
           let content := content_of response in
           let content :=
             if Py.endswith sitemap_url ".gz"
             then default content (gunzip E content) else content in
           let* root := of_option (xml_parse E content) in
           let* self := get id in
           let urls := add_locs self (locs root) urls in
           for_nested (process_sitemap depth') sitemap_url (sitemap_locs root) urls)
        (ret urls)
  end.

(** The [Sitemap:] lines of a robots.txt (lines 208-211). *)
Definition robots_sitemaps (robots_content : string) : list string :=
  flat_map
    (fun line =>
       if Py.startswith (Py.lower line) "sitemap:"
       then match Py.split1 ":" line with
            | (_, Some v) => [Py.strip v]
            | (_, None) => []
            end
       else [])
    (Py.splitlines robots_content).

Fixpoint for_sitemaps (sitemap_urls : list string) (urls : gset string) : M (gset string) :=
  match sitemap_urls with
  | [] => ret urls
  | sitemap_url :: rest =>
      let* urls := process_sitemap (S (recursion_limit E)) sitemap_url urls in
      for_sitemaps rest urls
  end.

(** [CompleteCrawler.fetch_sitemap_urls] *)
Definition fetch_sitemap_urls : M (gset string) :=
  let* self := get id in
  let robots_url := base_url self ++ "/robots.txt" in
  let* robots_content := fetch_url robots_url in
  let sitemap_urls :=
    match robots_content with
    | Some t => robots_sitemaps t
    | None => []
    end in
  let sitemap_urls :=
    match sitemap_urls with
    | [] => [ base_url self ++ "/sitemap.xml";
              base_url self ++ "/sitemap_index.xml";
              base_url self ++ "/sitemap.xml.gz" ]
    | _ => sitemap_urls
    end in
  for_sitemaps sitemap_urls ∅.

(** *** Link extractor *)

(** Lines 275-276: the URL without parameters, query and fragment;
    [None] when [urlparse] raises. *)
Definition clean_url (full_url : string) : option string :=
  (fun parsed =>
     Urllib.urlunparse
       (Urllib.Parsed (Urllib.scheme parsed) (Urllib.netloc parsed) (Urllib.path parsed)
                      EmptyString EmptyString EmptyString))
  <$> Urllib.urlparse full_url.

(** The loop over the anchors (lines 269-282).  An exception leaves the
    loop; the handler keeps the links gathered so far. *)
Fixpoint collect_links (self : crawler) (base : string) (hrefs : list string)
    (links : gset string) : gset string :=
  match hrefs with
  | [] => links
  | href :: rest =>
      if Py.truthy href then
        match urljoin E base href with
        | None => links
        | Some full_url =>
            match clean_url full_url with
            | None => links
            | Some clean =>
                if (eligible self clean && bool_decide (clean ∉ crawled_urls self))%bool
                then collect_links self base rest (links ∪ {[clean]})
                else collect_links self base rest links
            end
        end
      else collect_links self base rest links
  end.

(** [CompleteCrawler.extract_links_from_html] *)
Definition extract_links_from_html (self : crawler) (html_content base : string)
    : gset string :=
  match html_hrefs E html_content with
  | None => ∅
  | Some hrefs => collect_links self base hrefs ∅
  end.

(** *** Crawl scheduler *)

(** [crawl_page] up to its first suspension point: the test and the
    insertion into [crawled_urls] (lines 291-294).  The result tells
    whether the page goes on to be fetched. *)
Definition crawl_page_enter (url : string) : M bool :=
  fun c =>
    if (bool_decide (url ∈ crawled_urls c) ||
        (max_pages c <=? Z.of_nat (size (crawled_urls c))))%bool
    then (Returned false, c)
    else (Returned true, set_crawled (crawled_urls c ∪ {[url]}) c).

(** The rest of [crawl_page] (lines 297-304). *)
Definition crawl_page_fetch (url : string) : M (gset string) :=
  let* html_content := fetch_url url in
  match html_content with
  | Some (String a t) =>
      let* self := get id in
      ret (extract_links_from_html self (String a t) url)
  | _ => ret ∅
  end.

(** [CompleteCrawler.crawl_page] *)
Definition crawl_page (url : string) : M (gset string) :=
  let* go := crawl_page_enter url in
  if go then crawl_page_fetch url else ret ∅.

(** The result of a task under [return_exceptions=True]. *)
Definition settle {A} (m : M A) : M (outcome A) :=
  fun c => let '(r, c') := m c in (Returned r, c').

Fixpoint enter_all (batch : list string) : M (list (string * bool)) :=
  match batch with
  | [] => ret []
  | url :: rest =>
      let* go := crawl_page_enter url in
      let* gos := enter_all rest in
      ret ((url, go) :: gos)
  end.

Fixpoint finish_all (tasks : list (string * bool)) : M (list (outcome (gset string))) :=
  match tasks with
  | [] => ret []
  | (url, go) :: rest =>
      let* r := settle (if go then crawl_page_fetch url else ret ∅) in
      let* rs := finish_all rest in
      ret (r :: rs)
  end.

(** [asyncio.gather] with [return_exceptions=True] over the
    [crawl_page] tasks of a batch (lines 353-354).  The event loop starts
    the tasks in list order and runs each without interruption up to its
    first suspension point, which lies inside [fetch_url]; so the tests and
    insertions of all the tasks come first, in list order, and the fetches
    complete afterwards.  The results are listed in the order of the
    batch. *)
Definition gather (batch : list string) : M (list (outcome (gset string))) :=
  let* tasks := enter_all batch in
  finish_all tasks.

(** The loop over the results (lines 357-361). *)
Fixpoint collect_results (results : list (outcome (gset string)))
    (to_crawl : gset string) : M (gset string) :=
  match results with
  | [] => ret to_crawl
  | Returned result :: rest =>
      let* found := get found_urls in
      let new_links := result ∖ found in
      modify (set_found (found ∪ new_links)) >>
      collect_results rest (to_crawl ∪ new_links)
  | Raised :: rest => collect_results rest to_crawl
  end.

(** [list(to_crawl)[:10]] *)
Definition next_batch (self : crawler) (to_crawl : gset string) : list string :=
  take 10 (set_order E (List.length (trace self)) to_crawl).

(** One turn of the [while] loop (lines 348-367); the result is the new
    [to_crawl]. *)
Definition crawl_batch (to_crawl : gset string) : M (gset string) :=
  let* self := get id in
  let current_batch := next_batch self to_crawl in
  let to_crawl := to_crawl ∖ list_to_set current_batch in
  let* results := gather current_batch in
  let* to_crawl := collect_results results to_crawl in
  let* base_delay := get (fun c => delay_of c (domain c) 3) in
  sleep base_delay >>
  ret to_crawl.

(** [to_crawl and len(self.crawled_urls) < self.max_pages] *)
Definition loop_test (self : crawler) (to_crawl : gset string) : bool :=
  (negb (bool_decide (to_crawl = ∅)) &&
   (Z.of_nat (size (crawled_urls self)) <? max_pages self))%bool.

(** The [while] loop (line 347), run for at most [fuel] turns.  The
    result is the number of turns and the final [to_crawl], or [None] when
    the loop has not ended within [fuel] turns. *)
Fixpoint crawl_loop (fuel : nat) (to_crawl : gset string)
    : M (option (nat * gset string)) :=
  let* self := get id in
  if loop_test self to_crawl then
    match fuel with
    | O => ret None
    | S fuel' =>
        let* to_crawl := crawl_batch to_crawl in
        let* r := crawl_loop fuel' to_crawl in
        ret ((fun '(n, t) => (S n, t)) <$> r)
    end
  else ret (Some (O, to_crawl)).

(** Steps 1 and 2 up to the loop (lines 337-345); the result is
    [to_crawl]. *)
Definition seed : M (gset string) :=
  let* sitemap_urls := fetch_sitemap_urls in
  modify (fun c => set_found (found_urls c ∪ sitemap_urls) c) >>
  let* self := get id in
  let to_crawl := {[ base_url self ]} in
  modify (fun c => set_found (found_urls c ∪ {[ base_url c ]}) c) >>
  ret to_crawl.

(** *** Ranking *)

(** The loop of step 3 (lines 371-374) over an enumeration of
    [found_urls]. *)
Definition score_all (order : list string) (policy : list (Z * string))
    : list (Z * string) :=
  fold_left
    (fun acc url =>
       let score := score_url url in
       if 0 <? score then (acc ++ [(score, url)])%list else acc)
    order policy.

(** The order of the keys [(-x[0], x[1])]. *)
Definition key_le (x y : Z * string) : Prop :=
  - x.1 < - y.1 \/ (- x.1 = - y.1 /\ Py.str_le x.2 y.2 = true).

Global Instance key_le_dec x y : Decision (key_le x y).
Proof. unfold key_le. apply _. Defined.

(** [self.policy_urls.sort(key=lambda x: (-x[0], x[1]))] *)
Definition sort_policy (l : list (Z * string)) : list (Z * string) :=
  merge_sort key_le l.

(** Step 3 (lines 369-379). *)
Definition rank : M (list string) :=
  let* self := get id in
  let order := set_order E (List.length (trace self)) (found_urls self) in
  modify (fun c => set_policy (score_all order (policy_urls c)) c) >>
  modify (fun c => set_policy (sort_policy (policy_urls c)) c) >>
  let* policy := get policy_urls in
  ret (map snd policy).

(** Steps 1 and 2 of [run_complete_crawl] (lines 337-367): seeding, then
    the loop.  The loop is given [max_pages] turns, which it never exhausts
    ([None] would say it did). *)
Definition crawl_all : M (option (nat * gset string)) :=
  let* to_crawl := seed in
  let* budget := get max_pages in
  crawl_loop (Z.to_nat budget) to_crawl.




End Engine.

(** ** Notions used in the statements *)

(** The URL carries neither a query nor a fragment. *)
Definition no_query_fragment (u : string) : Prop :=
  Py.has_char "?" u = false /\ Py.has_char "#" u = false.

(** The URL up to its query or fragment. *)
Fixpoint strip_query_fragment (u : string) : string :=
  match u with
  | EmptyString => EmptyString
  | String c u' =>
      if (Ascii.eqb c "?" || Ascii.eqb c "#")%bool then EmptyString
      else String c (strip_query_fragment u')
  end.

(** Two distinct URLs that differ only in fragment or query string. *)
Definition differ_only_in_query_fragment (u v : string) : Prop :=
  u <> v /\ strip_query_fragment u = strip_query_fragment v.

(** The dedup property of a set of URLs. *)
Definition deduplicated (s : gset string) : Prop :=
  forall u v, u ∈ s -> v ∈ s -> ~ differ_only_in_query_fragment u v.

(** Requests that [fetch_url] issues, and requests that [process_sitemap]
    issues on the client itself. *)
Definition through_fetcher (e : event) : Prop :=
  match e with EvGet ProcessSitemap _ => False | _ => True end.
(** What [fetch_url] logs once entered. *)
Definition fetcher_step (e : event) : Prop :=
  match e with EvGet FetchUrl _ | EvSleep _ => True | _ => False end.

(** The URLs for which [fetch_url] was entered, oldest first. *)
Definition fetches (t : list event) : list string :=
  flat_map (fun e => match e with EvFetch u => [u] | _ => [] end) t.

(** The requests of a log. *)
Definition gets (t : list event) : list string :=
  flat_map (fun e => match e with EvGet _ u => [u] | _ => [] end) t.

(** The crawled-count is within the page budget. *)
Definition within_budget (c : crawler) : Prop :=
  Z.of_nat (size (crawled_urls c)) <= max_pages c.

Definition ceil_div (a b : nat) : nat := ((a + b - 1) / b)%nat.

(** The ranking order on URLs: higher score first, equal scores by
    ascending URL. *)
Definition rank_before (u v : string) : Prop :=
  score_url v < score_url u \/ (score_url u = score_url v /\ Py.str_le u v = true).

(** What [fetch_url] returns for the final response. *)
Definition outcome_of (r : reply) : option string :=
  match r with
  | Response 200 _ t _ => Some t
  | _ => None
  end.

(** The invariant of the [while] loop: [F0] is the discovered set when the
    loop starts, [b] the homepage, [P] a property of the links that pages
    yield. *)
Record loop_inv (P : string -> Prop) (F0 : gset string) (b : string) (to_crawl : gset string)
    (c : crawler) : Prop := LoopInv {
  inv_frontier : to_crawl ⊆ found_urls c;
  inv_crawled : crawled_urls c ⊆ found_urls c;
  inv_disjoint : to_crawl ## crawled_urls c;
  inv_seed : F0 ⊆ found_urls c;
  inv_origin : forall u, u ∈ to_crawl ∪ crawled_urls c -> u = b \/ u ∉ F0;
  inv_clean : forall u, u ∈ found_urls c -> u ∈ F0 \/ P u
}.

(** Relations between the crawler before and after an operation. *)

(** The operation left the configuration, the two URL sets and the ranking
    list alone. *)
Record quiet (c c' : crawler) : Prop := Quiet {
  quiet_domain : domain c' = domain c;
  quiet_max_pages : max_pages c' = max_pages c;
  quiet_policy : policy_urls c' = policy_urls c;
  quiet_found : found_urls c' = found_urls c;
  quiet_crawled : crawled_urls c' = crawled_urls c
}.

(** The operation logged events that satisfy [P], and nothing else. *)
Definition logs (P : event -> Prop) (c c' : crawler) : Prop :=
  exists evs, trace c' = (trace c ++ evs)%list /\ Forall P evs.

(** The operation left the rate-limiting tables alone. *)
Definition same_rate (c c' : crawler) : Prop :=
  request_delays c' = request_delays c /\
  last_request_time c' = last_request_time c.

(** The operation takes every crawler to one related to it by [R]. *)
Definition keeps (R : crawler -> crawler -> Prop) {A} (m : M A) : Prop :=
  forall c, R c (m c).2.

(** The operation never raises. *)
Definition safe {A} (m : M A) : Prop :=
  forall c, exists a, (m c).1 = Returned a.

(** The operation added [S] to [crawled_urls] and did nothing else. *)
Record only_crawled (S : gset string) (c c' : crawler) : Prop := OnlyCrawled {
  oc_domain : domain c' = domain c;
  oc_max_pages : max_pages c' = max_pages c;
  oc_policy : policy_urls c' = policy_urls c;
  oc_found : found_urls c' = found_urls c;
  oc_trace : trace c' = trace c;
  oc_crawled : crawled_urls c' = crawled_urls c ∪ S
}.

(** The operation added [N] to [found_urls] and did nothing else. *)
Record only_found (N : gset string) (c c' : crawler) : Prop := OnlyFound {
  of_domain : domain c' = domain c;
  of_max_pages : max_pages c' = max_pages c;
  of_policy : policy_urls c' = policy_urls c;
  of_crawled : crawled_urls c' = crawled_urls c;
  of_trace : trace c' = trace c;
  of_found : found_urls c' = found_urls c ∪ N
}.

(** The URLs of the tasks that went on to fetch their page. *)
Definition entered (tasks : list (string * bool)) : list string :=
  fst <$> filter (fun t => snd t = true) tasks.

(** A task result whose URLs all satisfy [P]. *)
Definition result_all (P : string -> Prop) (r : outcome (gset string)) : Prop :=
  match r with
  | Returned s => forall u, u ∈ s -> P u
  | Raised => True
  end.

(** ** Sample sites *)

Module Demo.

Definition shop : string := "shop.example".
Definition home : string := "https://shop.example".

(** Links are written in full on these sites. *)
Definition join (base href : string) : option string := Some href.

Definition by_content {A} (table : list (string * A)) (s : string) : option A :=
  snd <$> List.find (fun p => String.eqb (fst p) s) table.

(** No robots.txt; a sitemap of four pages; a homepage linking to [/a],
    which links to [/shipping]. *)
Definition site_net (n : nat) (url : string) : reply :=
  match by_content
          [ ("https://shop.example/sitemap.xml", Response 200 None "" "SITEMAP");
            ("https://shop.example", Response 200 None "HOME" "");
            ("https://shop.example/a", Response 200 None "A" "") ] url with
  | Some r => r
  | None => Response 404 None "" ""
  end.

Definition site : env :=
  Env site_net Z.of_nat (fun _ s => elements s) (fun _ => None)
    (by_content
       [ ("SITEMAP",
          Xml [ "https://shop.example/pages/return-policy";
                "https://shop.example/fr/pages/retours";
                "https://shop.example/help?x=1";
                "https://shop.example/help?x=2" ] []) ])
    (by_content
       [ ("HOME", [ "https://shop.example/a"; "https://shop.example/help/faq?x=1#top" ]);
         ("A", [ "https://shop.example/shipping" ]) ])
    join 50.


(** Every page answers with its own address as text and links to two
    pages below it: the frontier grows faster than it drains. *)
Definition tree : env :=
  Env (fun _ url => Response 200 None url "") Z.of_nat (fun _ s => elements s)
    (fun _ => None) (fun _ => None)
    (fun page => Some [ page ++ "/a"; page ++ "/b" ]) join 50.




End Demo.

(** [r] holds the URLs of [urls] and otherwise only non-empty URLs that the
    classifier of [c0] accepts. *)
Definition grown (c0 : crawler) (urls r : gset string) : Prop :=
  urls ⊆ r /\
  forall u, u ∈ r -> u ∈ urls \/ (eligible c0 u = true /\ u <> EmptyString).

(** The same environment with every set enumerated in the opposite order. *)
Definition reversed (E : env) : env :=
  Env (net E) (clock E) (fun n s => reverse (set_order E n s)) (gunzip E)
      (xml_parse E) (html_hrefs E) (urljoin E) (recursion_limit E).

(** * Properties *)

(** ** The scorer on the sample URL *)

Lemma score_shipping_policy_terms :
  let url := "https://shop.example/pages/shipping-policy" in
  matches KEYWORDS_PRIMARY url = ["shipping"; "shipping-policy"] /\
  matches KEYWORDS_SECONDARY url = ["policy"] /\
  matches PATH_KEYWORDS url = ["shipping-policy"] /\
  matches POLICY_PATHS url = ["/pages/"] /\
  matches NOISE_PATTERNS url = [] /\
  matches ["/us/"; "/en-us/"] url = [].
Proof. vm_compute. repeat split. Qed.

(** C2, as stated: the score of the sample URL is not 11. *)
Lemma score_shipping_policy_not_11 :
  score_url "https://shop.example/pages/shipping-policy" <> 11.
Proof. vm_compute. discriminate. Qed.

(** C2, amended: [score_url] returns 19 for
    [https://shop.example/pages/shipping-policy]: the primary list matches
    twice ("shipping" and "shipping-policy", 5 each), the secondary list
    once ("policy", 3), the path list once ("shipping-policy", 4), the
    path segment "/pages/" adds 2, and no noise pattern matches. *)
Theorem score_shipping_policy_is_19 :
  let url := "https://shop.example/pages/shipping-policy" in
  score_url url = 19 /\
  score_url url =
    5 * Z.of_nat (List.length (matches KEYWORDS_PRIMARY url))
    + 3 * Z.of_nat (List.length (matches KEYWORDS_SECONDARY url))
    + 4 * Z.of_nat (List.length (matches PATH_KEYWORDS url)) + 2 /\
  matches KEYWORDS_PRIMARY url = ["shipping"; "shipping-policy"] /\
  matches KEYWORDS_SECONDARY url = ["policy"] /\
  matches PATH_KEYWORDS url = ["shipping-policy"] /\
  matches POLICY_PATHS url = ["/pages/"] /\
  matches NOISE_PATTERNS url = [].
Proof. vm_compute. repeat split. Qed.

(** ** The fetcher *)

Section Fetcher.

Variable E : env.

Lemma fetch_url_unfold url c :
  fetch_url E url c =
  match rate_limit E url (log (EvFetch url) c) with
  | (Returned host, c1) => request E host url c1
  | (Raised, c1) => (Raised, c1)
  end.
Proof. reflexivity. Qed.

Lemma outcome_of_spec r :
  outcome_of r = if status_of r =? 200 then Some (text_of r) else None.
Proof.
  destruct r as [s h t b|]; simpl; [|done].
  destruct (Z.eqb_spec s 200) as [->|Hne]; [done|].
  destruct s as [|p|p]; try done.
  repeat (destruct p as [p|p|]; try done).
Qed.

(** The rate limiting leaves the delays alone and names the host of the
    URL; it fails exactly when [urlparse] does. *)
Lemma rate_limit_returned url c host c1 :
  rate_limit E url c = (Returned host, c1) ->
  Urllib.netloc <$> Urllib.urlparse url = Some host /\
  request_delays c1 = request_delays c /\
  last_request_time c1 !! host = Some (clock E (List.length (trace c1))) /\
  gets (trace c1) = gets (trace c).
Proof.
  unfold rate_limit, politeness_wait, time_time, sleep.
  unfold bind, of_option, get, modify, ret, raise.
  destruct (Urllib.netloc <$> Urllib.urlparse url) as [h|]; simpl; [|done].
  destruct (last_request_time c !! h) as [t0|]; simpl.
  - destruct (Z.ltb _ _); simpl; intros [= <- <-]; simpl;
      rewrite lookup_insert_eq; repeat split; try done.
    unfold gets. rewrite flat_map_app. simpl. by rewrite app_nil_r.
  - intros [= <- <-]; simpl. by rewrite lookup_insert_eq.
Qed.






End Fetcher.



(** ** What the operations preserve *)

Global Instance quiet_refl : Reflexive quiet.
Proof. by intros c. Qed.
Global Instance quiet_trans : Transitive quiet.
Proof. intros a b c [] []. split; congruence. Qed.

Global Instance logs_refl P : Reflexive (logs P).
Proof. intros c. exists []. by rewrite app_nil_r. Qed.
Global Instance logs_trans P : Transitive (logs P).
Proof.
  intros a b c (e1 & H1 & F1) (e2 & H2 & F2). exists (e1 ++ e2)%list.
  rewrite H2, H1, <- app_assoc. split; [done | by apply Forall_app].
Qed.

Global Instance same_rate_refl : Reflexive same_rate.
Proof. by intros c. Qed.
Global Instance same_rate_trans : Transitive same_rate.
Proof. intros a b c [] []. split; congruence. Qed.

Lemma logs_weaken (P Q : event -> Prop) c c' :
  (forall e, P e -> Q e) -> logs P c c' -> logs Q c c'.
Proof. intros HPQ (evs & Ht & HF). exists evs. split; [done|]. eapply Forall_impl; eauto. Qed.

Section Keeps.

Variable R : crawler -> crawler -> Prop.
Context `{!Reflexive R, !Transitive R}.

Lemma keeps_ret {A} (a : A) : keeps R (ret a).
Proof. intros c. reflexivity. Qed.

Lemma keeps_raise {A} : keeps R (@raise A).
Proof. intros c. reflexivity. Qed.

Lemma keeps_get {A} (f : crawler -> A) : keeps R (get f).
Proof. intros c. reflexivity. Qed.

Lemma keeps_of_option {A} (o : option A) : keeps R (of_option o).
Proof. destruct o; [apply keeps_ret | apply keeps_raise]. Qed.

Lemma keeps_modify f : (forall c, R c (f c)) -> keeps R (modify f).
Proof. intros Hf c. apply Hf. Qed.

Lemma keeps_bind {A B} (m : M A) (k : A -> M B) :
  keeps R m -> (forall a, keeps R (k a)) -> keeps R (bind m k).
Proof.
  intros Hm Hk c. unfold bind. specialize (Hm c).
  destruct (m c) as [[a|] c1]; simpl in *; [|done].
  etrans; [exact Hm | apply Hk].
Qed.

Lemma keeps_try {A} (m h : M A) :
  keeps R m -> keeps R h -> keeps R (try_except m h).
Proof.
  intros Hm Hh c. unfold try_except. specialize (Hm c).
  destruct (m c) as [[a|] c1]; simpl in *; [done|].
  etrans; [exact Hm | apply Hh].
Qed.

Lemma keeps_settle {A} (m : M A) : keeps R m -> keeps R (settle m).
Proof. intros Hm c. unfold settle. specialize (Hm c). by destruct (m c). Qed.

Variable E : env.
Variable ok : event -> Prop.
Hypothesis R_log : forall e c, ok e -> R c (log e c).
Hypothesis R_delays : forall d c, R c (set_delays d c).
Hypothesis R_last : forall t c, R c (set_last t c).

Lemma keeps_sleep d : ok (EvSleep d) -> keeps R (sleep d).
Proof. intros Hd. apply keeps_modify. intros c. by apply R_log. Qed.

Lemma keeps_client_get who url : ok (EvGet who url) -> keeps R (client_get E who url).
Proof.
  intros Hok c. unfold client_get.
  destruct (net E (List.length (trace c)) url); simpl; by apply R_log.
Qed.

Lemma keeps_politeness_wait host t :
  (forall d, ok (EvSleep d)) -> keeps R (politeness_wait host t).
Proof.
  intros Hs. unfold politeness_wait. apply keeps_bind; [apply keeps_get|].
  intros [t0|]; [|apply keeps_ret].
  apply keeps_bind; [apply keeps_get|]. intros d.
  destruct (Z.ltb _ _); [by apply keeps_sleep | apply keeps_ret].
Qed.

Lemma keeps_rate_limit url :
  (forall d, ok (EvSleep d)) -> keeps R (rate_limit E url).
Proof.
  intros Hs. unfold rate_limit.
  apply keeps_bind; [apply keeps_of_option|]. intros host.
  apply keeps_bind; [apply keeps_get|]. intros t.
  apply keeps_bind; [by apply keeps_politeness_wait|]. intros _.
  apply keeps_bind; [apply keeps_get|]. intros t'.
  apply keeps_bind; [|intros _; apply keeps_ret].
  apply keeps_modify. intros c. apply R_last.
Qed.

Lemma keeps_back_off host response :
  (forall d, ok (EvSleep d)) -> keeps R (back_off host response).
Proof.
  intros Hs. unfold back_off.
  assert (Hdflt : keeps R
    (let* d := get (fun c => delay_of c host 2) in
     let delay := Z.min (d * 2) 30 in
     modify (fun c => set_delays (<[host := delay]> (request_delays c)) c) >>
     sleep delay)).
  { apply keeps_bind; [apply keeps_get|]. intros d.
    apply keeps_bind; [|intros _; by apply keeps_sleep].
    apply keeps_modify. intros c. apply R_delays. }
  destruct (retry_after_of response) as [[|a v]|]; try exact Hdflt.
  apply keeps_bind; [apply keeps_of_option|]. intros d.
  apply keeps_bind; [|intros _; by apply keeps_sleep].
  apply keeps_modify. intros c. apply R_delays.
Qed.

Lemma keeps_request host url :
  (forall d, ok (EvSleep d)) -> ok (EvGet FetchUrl url) ->
  keeps R (request E host url).
Proof.
  intros Hs Hg. unfold request. apply keeps_try; [|apply keeps_ret].
  apply keeps_bind; [by apply keeps_client_get|]. intros resp.
  apply keeps_bind.
  - destruct (Z.eqb _ _); [|apply keeps_ret].
    apply keeps_bind; [by apply keeps_back_off|]. intros _. by apply keeps_client_get.
  - intros resp'. destruct (Z.eqb _ _); apply keeps_ret.
Qed.

Lemma keeps_fetch_after url :
  (forall d, ok (EvSleep d)) -> ok (EvGet FetchUrl url) ->
  keeps R (let* host := rate_limit E url in request E host url).
Proof.
  intros Hs Hg. apply keeps_bind; [by apply keeps_rate_limit|].
  intros host. by apply keeps_request.
Qed.

Lemma keeps_fetch_url url :
  ok (EvFetch url) -> (forall d, ok (EvSleep d)) -> ok (EvGet FetchUrl url) ->
  keeps R (fetch_url E url).
Proof.
  intros Hf Hs Hg. unfold fetch_url.
  apply keeps_bind; [|intros _; by apply keeps_fetch_after].
  apply keeps_modify. intros c. by apply R_log.
Qed.

Lemma keeps_for_nested rec sitemap_url ls urls :
  (forall u s, keeps R (rec u s)) ->
  keeps R (for_nested rec sitemap_url ls urls).
Proof.
  intros Hrec. revert urls. induction ls as [|l ls IH]; intros urls; simpl.
  - apply keeps_ret.
  - destruct (_ && _)%bool; [|apply IH].
    apply keeps_bind; [apply Hrec|]. intros urls'. apply IH.
Qed.

Lemma keeps_process_sitemap depth sitemap_url urls :
  (forall u, ok (EvGet ProcessSitemap u)) ->
  keeps R (process_sitemap E depth sitemap_url urls).
Proof.
  intros Hg. revert sitemap_url urls.
  induction depth as [|depth IH]; intros sitemap_url urls; simpl.
  - apply keeps_ret.
  - apply keeps_try; [|apply keeps_ret].
    apply keeps_bind; [by apply keeps_client_get|]. intros resp.
    destruct (negb _); [apply keeps_ret|].
    apply keeps_bind; [apply keeps_of_option|]. intros root.
    apply keeps_bind; [apply keeps_get|]. intros self.
    apply keeps_for_nested. intros u s. apply IH.
Qed.

Lemma keeps_for_sitemaps ls urls :
  (forall u, ok (EvGet ProcessSitemap u)) ->
  keeps R (for_sitemaps E ls urls).
Proof.
  intros Hg. revert urls. induction ls as [|l ls IH]; intros urls; cbn [for_sitemaps].
  - apply keeps_ret.
  - apply keeps_bind; [by apply keeps_process_sitemap|]. intros urls'. apply IH.
Qed.

Lemma keeps_fetch_sitemap_urls :
  (forall e, ok e) -> keeps R (fetch_sitemap_urls E).
Proof.
  intros Hok. unfold fetch_sitemap_urls.
  apply keeps_bind; [apply keeps_get|]. intros self.
  apply keeps_bind; [by apply keeps_fetch_url|]. intros robots.
  by apply keeps_for_sitemaps.
Qed.

Lemma keeps_crawl_page_fetch url :
  ok (EvFetch url) -> (forall d, ok (EvSleep d)) -> ok (EvGet FetchUrl url) ->
  keeps R (crawl_page_fetch E url).
Proof.
  intros Hf Hs Hg. unfold crawl_page_fetch.
  apply keeps_bind; [by apply keeps_fetch_url|].
  intros [[|a t]|]; try apply keeps_ret.
  apply keeps_bind; [apply keeps_get|]. intros self. apply keeps_ret.
Qed.

End Keeps.

(** *** The fetcher and the sitemap reader as seen by the scheduler *)

Lemma logs_log (P : event -> Prop) e c : P e -> logs P c (log e c).
Proof. intros He. exists [e]. split; [done | by constructor]. Qed.

Lemma logs_same (P : event -> Prop) c c' : trace c' = trace c -> logs P c c'.
Proof. intros Ht. exists []. by rewrite app_nil_r. Qed.

Lemma fetcher_step_fetches evs : Forall fetcher_step evs -> fetches evs = [].
Proof.
  induction 1 as [|e evs He _ IH]; [done|].
  unfold fetches in *. simpl. rewrite IH. by destruct e as [| |[]].
Qed.

Lemma fetcher_step_through e : fetcher_step e -> through_fetcher e.
Proof. by destruct e as [| |[]]. Qed.

Lemma fetches_app t1 t2 : fetches (t1 ++ t2) = (fetches t1 ++ fetches t2)%list.
Proof. apply flat_map_app. Qed.

Section Frames.

Variable E : env.

Lemma fetch_url_quiet url : keeps quiet (fetch_url E url).
Proof. by apply (keeps_fetch_url quiet E (fun _ => True)). Qed.

Lemma crawl_page_fetch_quiet url : keeps quiet (crawl_page_fetch E url).
Proof. by apply (keeps_crawl_page_fetch quiet E (fun _ => True)). Qed.

Lemma fetch_sitemap_urls_quiet : keeps quiet (fetch_sitemap_urls E).
Proof. by apply (keeps_fetch_sitemap_urls quiet E (fun _ => True)). Qed.

Lemma process_sitemap_quiet depth url urls :
  keeps quiet (process_sitemap E depth url urls).
Proof. by apply (keeps_process_sitemap quiet E (fun _ => True)). Qed.



(** Once entered, [fetch_url] logs requests of its own and sleeps. *)
Lemma fetch_after_logs url :
  keeps (logs fetcher_step) (let* host := rate_limit E url in request E host url).
Proof.
  apply (keeps_fetch_after (logs fetcher_step) E fetcher_step); try done.
  - intros e c. apply logs_log.
  - intros d c. by apply logs_same.
  - intros t c. by apply logs_same.
Qed.

Lemma fetch_url_trace url c :
  exists evs,
    trace (fetch_url E url c).2 = (trace c ++ EvFetch url :: evs)%list /\
    Forall fetcher_step evs.
Proof.
  destruct (fetch_after_logs url (log (EvFetch url) c)) as (evs & Ht & HF).
  exists evs. split; [|done].
  change (fetch_url E url c) with
    ((let* host := rate_limit E url in request E host url) (log (EvFetch url) c)).
  rewrite Ht. simpl. by rewrite <- app_assoc.
Qed.

Lemma crawl_page_fetch_trace url c :
  exists evs,
    trace (crawl_page_fetch E url c).2 = (trace c ++ EvFetch url :: evs)%list /\
    Forall fetcher_step evs.
Proof.
  destruct (fetch_url_trace url c) as (evs & Ht & HF). exists evs. split; [|done].
  unfold crawl_page_fetch, bind. destruct (fetch_url E url c) as [[[[|a t]|]|] c1]; done.
Qed.

End Frames.

(** *** The tasks of a batch *)

Lemma set_crawled_only S c : only_crawled S c (set_crawled (crawled_urls c ∪ S) c).
Proof. by split. Qed.

Lemma only_crawled_empty c : only_crawled ∅ c c.
Proof. split; try done. by rewrite union_empty_r_L. Qed.

Lemma crawl_page_enter_spec url c :
  (crawl_page_enter url c = (Returned false, c) /\
   (url ∈ crawled_urls c \/ max_pages c <= Z.of_nat (size (crawled_urls c)))) \/
  (crawl_page_enter url c = (Returned true, set_crawled (crawled_urls c ∪ {[url]}) c) /\
   (url ∉ crawled_urls c) /\ Z.of_nat (size (crawled_urls c)) < max_pages c).
Proof.
  unfold crawl_page_enter.
  destruct (bool_decide_reflect (url ∈ crawled_urls c)) as [Hin|Hout]; simpl.
  - left. auto.
  - destruct (Z.leb_spec (max_pages c) (Z.of_nat (size (crawled_urls c)))).
    + left. auto.
    + right. auto.
Qed.

Lemma size_add_fresh (X : gset string) u : u ∉ X -> size (X ∪ {[u]}) = S (size X).
Proof.
  intros Hu. rewrite size_union by set_solver. rewrite size_singleton. lia.
Qed.

Lemma enter_all_spec batch : forall c,
  exists tasks c',
    enter_all batch c = (Returned tasks, c') /\
    only_crawled (list_to_set (entered tasks)) c c' /\
    NoDup (entered tasks) /\
    (forall u, u ∈ entered tasks -> u ∈ batch /\ (u ∉ crawled_urls c)) /\
    (within_budget c -> within_budget c') /\
    (forall u rest, batch = u :: rest -> u ∉ crawled_urls c ->
       Z.of_nat (size (crawled_urls c)) < max_pages c -> u ∈ entered tasks).
Proof.
  induction batch as [|u batch IH]; intros c.
  - exists [], c. split; [done|]. split; [apply only_crawled_empty|].
    split; [constructor|]. split; [intros v Hv; by apply elem_of_nil in Hv|].
    split; [done|]. intros v rest [=].
  - cbn [enter_all]. unfold bind.
    destruct (crawl_page_enter_spec u c) as [[-> Hskip]|(-> & Hfresh & Hroom)].
    + destruct (IH c) as (tasks & c' & -> & Hoc & Hnd & Hent & Hb & _).
      exists ((u, false) :: tasks), c'. split; [done|].
      unfold entered in *. rewrite filter_cons_False by (simpl; congruence).
      split; [done|]. split; [done|]. split.
      { intros v Hv. destruct (Hent v Hv). split; [|done]. by right. }
      split; [done|].
      intros v rest [= <- <-] Hv Hlt. destruct Hskip; [done | lia].
    + set (c1 := set_crawled (crawled_urls c ∪ {[u]}) c).
      destruct (IH c1) as (tasks & c' & -> & Hoc & Hnd & Hent & Hb & _).
      exists ((u, true) :: tasks), c'. split; [done|].
      unfold entered in *. rewrite filter_cons_True by done.
      rewrite fmap_cons. cbn [fst].
      destruct Hoc as [Hd Hm Hp Hf Ht Hc]. simpl in *.
      split; [split; try done; simpl; rewrite Hc; set_solver|].
      split.
      { constructor; [|done]. intros Hin. destruct (Hent u Hin) as [_ Hn].
        apply Hn. set_solver. }
      split.
      { intros v Hv. apply elem_of_cons in Hv as [->|Hv].
        - split; [by left | done].
        - destruct (Hent v Hv) as [Hin Hn]. split; [by right | set_solver]. }
      split.
      { intros Hwb. apply Hb. unfold within_budget, c1. simpl.
        rewrite size_add_fresh by done. lia. }
      intros v rest [= <- <-] _ _. by left.
Qed.

Lemma collect_results_spec (P : string -> Prop) results : forall to_crawl c,
  exists N c',
    collect_results results to_crawl c = (Returned (to_crawl ∪ N), c') /\
    only_found N c c' /\
    N ## found_urls c /\
    (Forall (result_all P) results -> forall u, u ∈ N -> P u).
Proof.
  induction results as [|[s|] results IH]; intros to_crawl c.
  - exists ∅, c. split; [by rewrite union_empty_r_L|].
    split; [split; try done; set_solver|]. split; [set_solver|]. set_solver.
  - cbn [collect_results]. unfold bind, get, modify.
    set (new_links := s ∖ found_urls c).
    set (c1 := set_found (found_urls c ∪ new_links) c).
    destruct (IH (to_crawl ∪ new_links) c1) as (N & c' & -> & Hof & Hdis & Hclean).
    exists (new_links ∪ N), c'. split; [by rewrite union_assoc_L|].
    destruct Hof as [Hd Hm Hp Hc Ht Hf]. simpl in *.
    split; [split; try done; rewrite Hf; set_solver|].
    split; [set_solver|].
    intros HF u Hu. inversion HF as [|? ? Hs HF']; subst.
    apply elem_of_union in Hu as [Hu|Hu]; [|by apply Hclean].
    apply Hs. set_solver.
  - cbn [collect_results].
    destruct (IH to_crawl c) as (N & c' & -> & Hof & Hdis & Hclean).
    exists N, c'. split; [done|]. split; [done|]. split; [done|].
    intros HF. apply Hclean. by inversion HF.
Qed.

(** ** URLs without query and fragment *)

Lemma has_char_app d s t :
  Py.has_char d (s ++ t) = (Py.has_char d s || Py.has_char d t)%bool.
Proof. induction s as [|a s IH]; simpl; [done|]. by rewrite IH, orb_assoc. Qed.

Lemma split1_head_free d s : Py.has_char d (Py.split1 d s).1 = false.
Proof.
  induction s as [|a s IH]; simpl; [done|].
  destruct (Ascii.eqb d a) eqn:Hda; simpl; [done|].
  destruct (Py.split1 d s) as [h t]. simpl in *. by rewrite Hda.
Qed.

Lemma split1_head_sub d c s :
  Py.has_char d (Py.split1 c s).1 = true -> Py.has_char d s = true.
Proof.
  induction s as [|a s IH]; simpl; [done|].
  destruct (Ascii.eqb c a); simpl; [done|].
  destruct (Py.split1 c s) as [h t]. simpl in *.
  destruct (Ascii.eqb d a); simpl; [done | exact IH].
Qed.

Lemma split_opt_fst c s : (Urllib.split_opt c s).1 = (Py.split1 c s).1.
Proof. unfold Urllib.split_opt. by destruct (Py.split1 c s) as [h [t|]]. Qed.

Lemma rsplit_slash_app s :
  s = (Urllib.rsplit_slash s).1 ++ (Urllib.rsplit_slash s).2.
Proof.
  induction s as [|a s IH]; simpl; [done|].
  destruct (Py.has_char "/" s).
  - destruct (Urllib.rsplit_slash s) as [pre last]. simpl in *. change (String a s = String a (pre ++ last)). by f_equal.
  - by destruct (Ascii.eqb a "/").
Qed.

Lemma splitparams_sub d s :
  Py.has_char d (Urllib.splitparams s).1 = true -> Py.has_char d s = true.
Proof.
  unfold Urllib.splitparams. pose proof (rsplit_slash_app s) as Hs.
  destruct (Urllib.rsplit_slash s) as [pre last]. simpl in Hs.
  pose proof (split1_head_sub d ";" last) as Hh.
  destruct (Py.split1 ";" last) as [h [t|]]; simpl in *; [|done].
  rewrite has_char_app. intros Hor.
  rewrite Hs at 1. rewrite has_char_app.
  apply orb_true_iff in Hor as [Hp|Hl].
  - by rewrite Hp.
  - rewrite (Hh Hl). apply orb_true_r.
Qed.

Lemma free_sub d (f : string -> string) s :
  (Py.has_char d (f s) = true -> Py.has_char d s = true) ->
  Py.has_char d s = false -> Py.has_char d (f s) = false.
Proof. intros Hsub Hs. destruct (Py.has_char d (f s)); [|done]. by rewrite Hsub in Hs. Qed.

Section CleanUrls.

(** The character [d] is a question mark or a hash sign. *)
Variable d : ascii.
Hypothesis d_mark : d = "?"%char \/ d = "#"%char.

Lemma splitnetloc_host_free s : Py.has_char d (Urllib.splitnetloc s).1 = false.
Proof.
  induction s as [|a s IH]; simpl; [done|].
  destruct (Ascii.eqb a "/" || Ascii.eqb a "?" || Ascii.eqb a "#")%bool eqn:Ha; [done|].
  destruct (Urllib.splitnetloc s) as [h t]. simpl in *. rewrite IH, orb_false_r.
  apply orb_false_elim in Ha as [Ha H3]. apply orb_false_elim in Ha as [_ H2].
  apply Ascii.eqb_neq in H2, H3. apply Ascii.eqb_neq.
  destruct d_mark; congruence.
Qed.

Lemma scheme_char_lower a :
  Urllib.is_scheme_char a = true -> Ascii.eqb d (Py.lower_char a) = false.
Proof.
  destruct d_mark as [-> | ->];
    destruct a as [[] [] [] [] [] [] [] []]; vm_compute; congruence.
Qed.

Lemma scheme_lower_free s :
  Urllib.all_chars Urllib.is_scheme_char s = true -> Py.has_char d (Py.lower s) = false.
Proof.
  induction s as [|a s IH]; simpl; [done|].
  intros [Ha Hs]%andb_true_iff. by rewrite scheme_char_lower, IH.
Qed.

Lemma split_scheme_free u : Py.has_char d (Urllib.split_scheme u).1 = false.
Proof.
  unfold Urllib.split_scheme.
  destruct (Py.split1 ":" u) as [[|c0 s0] [rest|]]; try done.
  destruct (Urllib.is_alpha c0 && _)%bool eqn:Hs; [|done].
  apply andb_true_iff in Hs as [_ Hs]. by apply scheme_lower_free.
Qed.

(** The scheme, the host and the path that [urlsplit] gives hold no [d]. *)
Lemma urlsplit_parts u p :
  Urllib.urlsplit u = Some p ->
  Py.has_char d (Urllib.scheme p) = false /\
  Py.has_char d (Urllib.netloc p) = false /\
  Py.has_char d (Urllib.path p) = false.
Proof.
  unfold Urllib.urlsplit.
  pose proof (split_scheme_free (Urllib.remove_unsafe (Urllib.lstrip_c0 u))) as Hsch.
  destruct (Urllib.split_scheme _) as [sch u1]. simpl in Hsch.
  set (nl := match u1 with
             | String "/" (String "/" rest) => Urllib.splitnetloc rest
             | _ => (EmptyString, u1)
             end).
  assert (Hnl : Py.has_char d nl.1 = false).
  { unfold nl. destruct u1 as [|a [|b rest]]; try done.
    - by destruct a as [[] [] [] [] [] [] [] []].
    - destruct a as [[] [] [] [] [] [] [] []]; try done.
      destruct b as [[] [] [] [] [] [] [] []]; try done.
      apply splitnetloc_host_free. }
  destruct nl as [host u2]. simpl in Hnl.
  destruct (Urllib.brackets_ok host); [|done].
  pose proof (split_opt_fst "#" u2) as H1.
  destruct (Urllib.split_opt "#" u2) as [u3 frag]. simpl in H1.
  pose proof (split_opt_fst "?" u3) as H2.
  destruct (Urllib.split_opt "?" u3) as [u4 qry]. simpl in H2.
  intros [= <-]. simpl. repeat split; try done.
  subst u4 u3. destruct d_mark as [Hd|Hd].
  - rewrite Hd. apply split1_head_free.
  - apply (free_sub d (fun s => (Py.split1 "?" s).1)); [apply split1_head_sub|].
    rewrite Hd. apply split1_head_free.
Qed.

Lemma urlparse_parts u p :
  Urllib.urlparse u = Some p ->
  Py.has_char d (Urllib.scheme p) = false /\
  Py.has_char d (Urllib.netloc p) = false /\
  Py.has_char d (Urllib.path p) = false.
Proof.
  unfold Urllib.urlparse.
  destruct (Urllib.urlsplit u) as [q|] eqn:Hq; [|done].
  destruct (urlsplit_parts _ _ Hq) as (Hs & Hn & Hp).
  destruct (_ && _)%bool; [|by intros [= <-]].
  pose proof (splitparams_sub d (Urllib.path q)) as Hsub.
  destruct (Urllib.splitparams (Urllib.path q)) as [u' ps]. simpl in Hsub.
  intros [= <-]. simpl. repeat split; try done.
  destruct (Py.has_char d u'); [|done]. by rewrite Hsub in Hp.
Qed.

(** [clean_url] gives a URL without [d]. *)
Lemma clean_url_free full clean :
  clean_url full = Some clean -> Py.has_char d clean = false.
Proof.
  unfold clean_url. destruct (Urllib.urlparse full) as [p|] eqn:Hp; [|done].
  destruct (urlparse_parts _ _ Hp) as (Hs & Hn & Hpa).
  intros [= <-]. unfold Urllib.urlunparse. simpl.
  assert (Hslash : Ascii.eqb d "/" = false) by (by destruct d_mark as [-> | ->]).
  assert (Hcolon : Ascii.eqb d ":" = false) by (by destruct d_mark as [-> | ->]).
  repeat match goal with
         | |- context [if ?b then _ else _] => destruct b
         end;
    cbn [String.append Py.has_char]; rewrite ?has_char_app;
    cbn [String.append Py.has_char];
    rewrite ?Hslash, ?Hcolon, ?Hs, ?Hn, ?Hpa; try done.
Qed.

End CleanUrls.

Lemma clean_url_no_query_fragment full clean :
  clean_url full = Some clean -> no_query_fragment clean.
Proof.
  intros H. split; eapply clean_url_free; eauto.
Qed.

Lemma collect_links_clean E self base hrefs : forall links,
  (forall u, u ∈ links -> no_query_fragment u) ->
  forall u, u ∈ collect_links E self base hrefs links -> no_query_fragment u.
Proof.
  induction hrefs as [|href hrefs IH]; intros links Hl; simpl; [done|].
  destruct (Py.truthy href); [|by apply IH].
  destruct (urljoin E base href) as [full|]; [|done].
  destruct (clean_url full) as [clean|] eqn:Hc; [|done].
  destruct (_ && _)%bool; [|by apply IH].
  apply IH. intros u [Hu|Hu]%elem_of_union; [by apply Hl|].
  apply elem_of_singleton in Hu as ->. by eapply clean_url_no_query_fragment.
Qed.

(** Link extraction yields only URLs without query and fragment. *)
Lemma extract_links_clean E self html_content base u :
  u ∈ extract_links_from_html E self html_content base -> no_query_fragment u.
Proof.
  unfold extract_links_from_html. destruct (html_hrefs E html_content); [|set_solver].
  apply collect_links_clean. set_solver.
Qed.

Lemma crawl_page_fetch_clean E url c :
  result_all no_query_fragment (crawl_page_fetch E url c).1.
Proof.
  unfold crawl_page_fetch, bind.
  destruct (fetch_url E url c) as [[[[|a t]|]|] c1]; simpl; try done;
    try (intros u Hu; by apply elem_of_empty in Hu).
  intros u. apply extract_links_clean.
Qed.

(** ** One turn of the crawl loop *)

Lemma finish_all_spec E (P : string -> Prop) (d : string) tasks :
  (forall url c, domain c = d -> result_all P (crawl_page_fetch E url c).1) ->
  forall c, domain c = d ->
  exists results c' evs,
    finish_all E tasks c = (Returned results, c') /\
    quiet c c' /\
    trace c' = (trace c ++ evs)%list /\
    fetches evs = entered tasks /\
    Forall through_fetcher evs /\
    Forall (result_all P) results.
Proof.
  intros HP. induction tasks as [|[url go] tasks IH]; intros c Hdom.
  - exists [], c, []. rewrite app_nil_r. by repeat split.
  - cbn [finish_all]. unfold bind, settle. destruct go.
    + pose proof (crawl_page_fetch_quiet E url c) as Hq.
      pose proof (HP url c Hdom) as Hcl.
      destruct (crawl_page_fetch_trace E url c) as (ev1 & Ht1 & HF1).
      destruct (crawl_page_fetch E url c) as [r c1]. simpl in *.
      destruct (IH c1) as (results & c' & ev2 & -> & Hq2 & Ht2 & Hf2 & HF2 & Hcl2);
        [by rewrite (quiet_domain _ _ Hq)|].
      exists (r :: results), c', ((EvFetch url :: ev1) ++ ev2)%list.
      split; [done|]. split; [by etrans|].
      split; [by rewrite Ht2, Ht1, <- app_assoc|].
      split.
      { rewrite fetches_app, Hf2. unfold entered. rewrite filter_cons_True by done.
        unfold fetches at 1. simpl. fold (fetches ev1).
        by rewrite (fetcher_step_fetches _ HF1). }
      split; [|by constructor].
      apply Forall_app. split; [|done]. constructor; [done|].
      eapply Forall_impl; [exact HF1 | apply fetcher_step_through].
    + unfold ret.
      destruct (IH c Hdom) as (results & c' & ev2 & -> & Hq2 & Ht2 & Hf2 & HF2 & Hcl2).
      exists (Returned ∅ :: results), c', ev2.
      split; [done|]. split; [done|]. split; [done|].
      split; [unfold entered; by rewrite filter_cons_False by (simpl; congruence)|].
      split; [done|]. constructor; [|done].
      intros u Hu. by apply elem_of_empty in Hu.
Qed.

Lemma next_batch_sub E c (to_crawl : gset string) :
  fair_order E -> forall u, u ∈ next_batch E c to_crawl -> u ∈ to_crawl.
Proof.
  intros Hfair u Hu. unfold next_batch in Hu.
  apply elem_of_take in Hu as (i & Hu & _). apply list_elem_of_lookup_2 in Hu.
  rewrite (Hfair _ _) in Hu. by apply elem_of_elements in Hu.
Qed.

Lemma next_batch_nonempty E c (to_crawl : gset string) :
  fair_order E -> to_crawl <> ∅ ->
  exists u rest, next_batch E c to_crawl = u :: rest.
Proof.
  intros Hfair Hne. unfold next_batch.
  destruct (set_order E (List.length (trace c)) to_crawl) as [|u l] eqn:Ho.
  - exfalso. apply Hne. apply leibniz_equiv, elements_empty_inv.
    specialize (Hfair (List.length (trace c)) to_crawl). rewrite Ho in Hfair.
    apply Permutation_nil_l in Hfair. by rewrite Hfair.
  - simpl. eauto.
Qed.

(** What a turn does: [B] is the batch, [entered'] the URLs it crawls, [N]
    the links it discovers, [evs] what it logs. *)
Lemma crawl_batch_spec_in E (P : string -> Prop) (d : string) (to_crawl : gset string) c :
  (forall url c, domain c = d -> result_all P (crawl_page_fetch E url c).1) ->
  fair_order E ->
  domain c = d ->
  exists (B entered' N : gset string) c' evs,
    crawl_batch E to_crawl c = (Returned ((to_crawl ∖ B) ∪ N), c') /\
    B ⊆ to_crawl /\
    domain c' = domain c /\ max_pages c' = max_pages c /\
    policy_urls c' = policy_urls c /\
    found_urls c' = found_urls c ∪ N /\ N ## found_urls c /\
    (forall u, u ∈ N -> P u) /\
    crawled_urls c' = crawled_urls c ∪ entered' /\
    entered' ⊆ B /\ entered' ## crawled_urls c /\
    (within_budget c -> within_budget c') /\
    trace c' = (trace c ++ evs)%list /\
    Forall through_fetcher evs /\
    NoDup (fetches evs) /\
    (forall u, u ∈ fetches evs -> u ∈ entered') /\
    (to_crawl <> ∅ -> to_crawl ## crawled_urls c ->
     Z.of_nat (size (crawled_urls c)) < max_pages c ->
     (size (crawled_urls c) < size (crawled_urls c'))%nat).
Proof.
  intros HP Hfair Hdom.
  unfold crawl_batch, gather, sleep. unfold bind, get, modify, ret. cbn [id].
  set (batch := next_batch E c to_crawl).
  destruct (enter_all_spec batch c) as (tasks & c1 & -> & Hoc & Hnd & Hent & Hwb & Hprog).
  destruct (finish_all_spec E P d tasks HP c1)
    as (results & c2 & evs & -> & Hq & Ht & Hfe & Hthrough & Hclean);
    [by rewrite (oc_domain _ _ _ Hoc)|].
  destruct (collect_results_spec P results (to_crawl ∖ list_to_set batch) c2)
    as (N & c3 & -> & Hof & Hdis & HcleanN).
  destruct Hoc as [Hd1 Hm1 Hp1 Hf1 Ht1 Hc1].
  destruct Hq as [Hd2 Hm2 Hp2 Hf2 Hc2].
  destruct Hof as [Hd3 Hm3 Hp3 Hc3 Ht3 Hf3].
  exists (list_to_set batch), (list_to_set (entered tasks)), N,
    (log (EvSleep (delay_of c3 (domain c3) 3)) c3),
    (evs ++ [EvSleep (delay_of c3 (domain c3) 3)])%list.
  assert (HB : list_to_set batch ⊆ to_crawl).
  { intros u Hu%elem_of_list_to_set. by eapply next_batch_sub. }
  split; [done|]. split; [done|].
  split; [simpl; congruence|]. split; [simpl; congruence|]. split; [simpl; congruence|].
  split; [simpl; congruence|].
  split; [by rewrite <- Hf1, <- Hf2|].
  split; [by apply HcleanN|].
  split; [simpl; congruence|].
  split.
  { intros u Hu%elem_of_list_to_set. apply elem_of_list_to_set. by apply Hent. }
  split.
  { intros u Hu%elem_of_list_to_set Hc. by destruct (Hent u Hu). }
  split.
  { intros Hb. specialize (Hwb Hb). unfold within_budget in *. simpl.
    by rewrite Hc3, Hc2, Hm3, Hm2. }
  split; [simpl; by rewrite Ht3, Ht, Ht1, <- app_assoc|].
  split; [apply Forall_app; split; [done | by constructor]|].
  split; [rewrite fetches_app, Hfe; simpl; by rewrite app_nil_r|].
  split.
  { intros u. rewrite fetches_app, Hfe. simpl. rewrite app_nil_r.
    apply elem_of_list_to_set. }
  intros Hne Hdisj Hroom. simpl. rewrite Hc3, Hc2, Hc1.
  destruct (next_batch_nonempty E c to_crawl Hfair Hne) as (u & rest & Hb).
  assert (Hu : u ∈ to_crawl).
  { eapply next_batch_sub; [done|]. rewrite Hb. by left. }
  assert (Hfresh : u ∉ crawled_urls c) by set_solver.
  specialize (Hprog u rest Hb Hfresh Hroom).
  assert (Hsub : crawled_urls c ∪ {[u]} ⊆ crawled_urls c ∪ list_to_set (entered tasks)).
  { apply union_mono_l. intros v ->%elem_of_singleton. by apply elem_of_list_to_set. }
  apply subseteq_size in Hsub. rewrite size_add_fresh in Hsub by done. lia.
Qed.

Lemma crawl_batch_spec E (P : string -> Prop) (to_crawl : gset string) c :
  (forall url c, result_all P (crawl_page_fetch E url c).1) ->
  fair_order E ->
  exists (B entered' N : gset string) c' evs,
    crawl_batch E to_crawl c = (Returned ((to_crawl ∖ B) ∪ N), c') /\
    B ⊆ to_crawl /\
    domain c' = domain c /\ max_pages c' = max_pages c /\
    policy_urls c' = policy_urls c /\
    found_urls c' = found_urls c ∪ N /\ N ## found_urls c /\
    (forall u, u ∈ N -> P u) /\
    crawled_urls c' = crawled_urls c ∪ entered' /\
    entered' ⊆ B /\ entered' ## crawled_urls c /\
    (within_budget c -> within_budget c') /\
    trace c' = (trace c ++ evs)%list /\
    Forall through_fetcher evs /\
    NoDup (fetches evs) /\
    (forall u, u ∈ fetches evs -> u ∈ entered') /\
    (to_crawl <> ∅ -> to_crawl ## crawled_urls c ->
     Z.of_nat (size (crawled_urls c)) < max_pages c ->
     (size (crawled_urls c) < size (crawled_urls c'))%nat).
Proof.
  intros HP Hfair. apply (crawl_batch_spec_in E P (domain c)); auto.
Qed.

(** ** The crawl loop *)

Lemma loop_inv_turn (P : string -> Prop) F0 b (to_crawl B entered' N : gset string) c c' :
  loop_inv P F0 b to_crawl c ->
  B ⊆ to_crawl ->
  found_urls c' = found_urls c ∪ N -> N ## found_urls c ->
  (forall u, u ∈ N -> P u) ->
  crawled_urls c' = crawled_urls c ∪ entered' ->
  entered' ⊆ B ->
  loop_inv P F0 b ((to_crawl ∖ B) ∪ N) c'.
Proof.
  intros [Hfr Hcr Hdis Hseed Horig Hcl] HB Hf HN HNc Hc He.
  split.
  - rewrite Hf. set_solver.
  - rewrite Hf, Hc. set_solver.
  - rewrite Hc. set_solver.
  - rewrite Hf. set_solver.
  - intros u Hu. rewrite Hc in Hu.
    destruct (decide (u ∈ N)) as [HuN|HuN].
    + right. set_solver.
    + apply Horig. set_solver.
  - intros u Hu. rewrite Hf in Hu. apply elem_of_union in Hu as [Hu|Hu]; auto.
Qed.

Lemma loop_test_true c (to_crawl : gset string) :
  loop_test c to_crawl = true ->
  to_crawl <> ∅ /\ Z.of_nat (size (crawled_urls c)) < max_pages c.
Proof.
  unfold loop_test. intros [H1 H2]%andb_true_iff.
  apply negb_true_iff, bool_decide_eq_false in H1. apply Z.ltb_lt in H2. done.
Qed.

Lemma crawl_loop_done E fuel (to_crawl : gset string) c :
  loop_test c to_crawl = false ->
  crawl_loop E fuel to_crawl c = (Returned (Some (0%nat, to_crawl)), c).
Proof.
  intros Htest. destruct fuel; cbn [crawl_loop]; unfold bind, get, ret; cbn [id];
    by rewrite Htest.
Qed.

(** The loop ends within the turns the page budget leaves, each turn
    crawling at least one more page; [n] is the number of turns, [evs] what
    the loop logs. *)
Lemma crawl_loop_spec E (P : string -> Prop) (d : string) F0 b :
  (forall url c, domain c = d -> result_all P (crawl_page_fetch E url c).1) ->
  fair_order E ->
  forall fuel (to_crawl : gset string) c,
    domain c = d ->
    loop_inv P F0 b to_crawl c ->
    (Z.to_nat (max_pages c - Z.of_nat (size (crawled_urls c))) <= fuel)%nat ->
    exists n (to_crawl' : gset string) c' evs,
      crawl_loop E fuel to_crawl c = (Returned (Some (n, to_crawl')), c') /\
      loop_inv P F0 b to_crawl' c' /\
      loop_test c' to_crawl' = false /\
      domain c' = domain c /\ max_pages c' = max_pages c /\
      policy_urls c' = policy_urls c /\
      found_urls c ⊆ found_urls c' /\
      crawled_urls c ⊆ crawled_urls c' /\
      (within_budget c -> within_budget c') /\
      (size (crawled_urls c) + n <= size (crawled_urls c'))%nat /\
      (n <= Z.to_nat (max_pages c - Z.of_nat (size (crawled_urls c))))%nat /\
      trace c' = (trace c ++ evs)%list /\
      Forall through_fetcher evs /\
      NoDup (fetches evs) /\
      (forall u, u ∈ fetches evs -> (u ∉ crawled_urls c) /\ u ∈ crawled_urls c').
Proof.
  intros HP Hfair. induction fuel as [|fuel IH]; intros to_crawl c Hdom Hinv Hfuel.
  - destruct (loop_test c to_crawl) eqn:Htest.
    { apply loop_test_true in Htest as [_ Hlt]. lia. }
    exists 0%nat, to_crawl, c, []. rewrite app_nil_r.
    split; [by apply crawl_loop_done|].
    do 8 (split; [done|]). split; [lia|]. split; [lia|]. split; [done|].
    split; [constructor|]. split; [constructor|].
    intros u Hu. by apply elem_of_nil in Hu.
  - destruct (loop_test c to_crawl) eqn:Htest.
    2:{ exists 0%nat, to_crawl, c, []. rewrite app_nil_r.
        split; [by apply crawl_loop_done|].
        do 8 (split; [done|]). split; [lia|]. split; [lia|]. split; [done|].
        split; [constructor|]. split; [constructor|].
        intros u Hu. by apply elem_of_nil in Hu. }
    destruct (loop_test_true _ _ Htest) as [Hne Hlt].
    destruct (crawl_batch_spec_in E P d to_crawl c HP Hfair Hdom)
      as (B & Ent & N & c1 & ev1 & Hrun & HB & Hd & Hm & Hp & Hf & HN & HNc & Hc &
          HEB & HEc & Hwb & Ht & Hthr & Hnd & Hfe & Hprog).
    specialize (Hprog Hne (inv_disjoint _ _ _ _ _ Hinv) Hlt).
    pose proof (loop_inv_turn _ _ _ _ _ _ _ _ _ Hinv HB Hf HN HNc Hc HEB) as Hinv1.
    destruct (IH _ c1 (eq_trans Hd Hdom) Hinv1)
      as (n & tc' & c' & ev2 & Hrun2 & Hinv2 & Htest2 & Hd2 & Hm2 & Hp2 & Hf2 & Hc2 &
          Hwb2 & Hsz2 & Hn2 & Ht2 & Hthr2 & Hnd2 & Hfe2).
    { rewrite Hm. lia. }
    exists (S n), tc', c', (ev1 ++ ev2)%list.
    split.
    { cbn [crawl_loop]. unfold bind, get, ret in *. cbn [id].
      rewrite Htest, Hrun, Hrun2. done. }
    split; [done|]. split; [done|].
    split; [congruence|]. split; [congruence|]. split; [congruence|].
    split; [rewrite Hf in Hf2; set_solver|].
    split; [rewrite Hc in Hc2; set_solver|].
    split; [auto|].
    split; [lia|].
    split; [rewrite Hm in Hn2; lia|].
    split; [by rewrite Ht2, Ht, <- app_assoc|].
    split; [by apply Forall_app|].
    split.
    { rewrite fetches_app. apply NoDup_app. split; [done|]. split; [|done].
      intros u Hu1 Hu2. destruct (Hfe2 u Hu2) as [Hout _]. apply Hout.
      rewrite Hc. specialize (Hfe u Hu1). set_solver. }
    intros u. rewrite fetches_app. intros [Hu|Hu]%elem_of_app.
    + specialize (Hfe u Hu). split; [set_solver|]. apply Hc2. rewrite Hc. set_solver.
    + destruct (Hfe2 u Hu) as [Hout Hin]. split; [|done].
      intros Hold. apply Hout. rewrite Hc. set_solver.
Qed.

(** ** Operations that never raise *)


Lemma safe_get {A} (f : crawler -> A) : safe (get f).
Proof. intros c. by eexists. Qed.










(** ** Seeding and the whole crawl *)

Lemma seed_spec E c :
  match fetch_sitemap_urls E c with
  | (Returned sitemap_urls, c1) =>
      seed E c =
        (Returned {[ base_url c ]},
         set_found (found_urls c ∪ sitemap_urls ∪ {[ base_url c ]}) c1)
  | (Raised, c1) => seed E c = (Raised, c1)
  end.
Proof.
  unfold seed, bind. pose proof (fetch_sitemap_urls_quiet E c) as Hq.
  destruct (fetch_sitemap_urls E c) as [[S|] c1]; [|done]. simpl in Hq.
  destruct Hq as [Hd Hm Hp Hf Hc]. unfold modify, get, ret. cbn [id].
  unfold base_url. simpl. by rewrite Hd, Hf.
Qed.

Lemma seeded_inv (P : string -> Prop) (S : gset string) c c1 :
  crawled_urls c = ∅ -> quiet c c1 ->
  let F0 := found_urls c ∪ S ∪ {[ base_url c ]} in
  loop_inv P F0 (base_url c) {[ base_url c ]} (set_found F0 c1).
Proof.
  intros Hc [Hd Hm Hp Hf Hc1] F0. split; simpl; rewrite ?Hc1, ?Hc.
  - set_solver.
  - set_solver.
  - set_solver.
  - done.
  - intros u Hu. left. set_solver.
  - by left.
Qed.

(** The crawl of a fresh crawler whose robots.txt URL parses: [n] turns,
    the log [evs] of the loop. *)
Lemma crawl_all_spec_in E (P : string -> Prop) c (S : gset string) c1 :
  (forall url k, domain k = domain c -> result_all P (crawl_page_fetch E url k).1) ->
  fair_order E ->
  crawled_urls c = ∅ ->
  fetch_sitemap_urls E c = (Returned S, c1) ->
  let b := base_url c in
  let F0 := found_urls c ∪ S ∪ {[ b ]} in
  exists n (to_crawl : gset string) c' evs,
    crawl_all E c = (Returned (Some (n, to_crawl)), c') /\
    loop_inv P F0 b to_crawl c' /\
    loop_test c' to_crawl = false /\
    domain c' = domain c /\ max_pages c' = max_pages c /\
    policy_urls c' = policy_urls c /\
    (0 <= max_pages c -> within_budget c') /\
    (n <= size (crawled_urls c'))%nat /\
    (n <= Z.to_nat (max_pages c))%nat /\
    trace c' = (trace c1 ++ evs)%list /\
    Forall through_fetcher evs /\
    NoDup (fetches evs) /\
    (forall u, u ∈ fetches evs -> u ∈ crawled_urls c').
Proof.
  intros HP Hfair Hc Hfs b F0.
  pose proof (seed_spec E c) as Hseed. rewrite Hfs in Hseed.
  pose proof (fetch_sitemap_urls_quiet E c) as Hq. rewrite Hfs in Hq. simpl in Hq.
  pose proof (seeded_inv P S c c1 Hc Hq) as Hinv. fold b F0 in Hinv, Hseed.
  destruct Hq as [Hd Hm Hp Hf Hc1].
  set (cs := set_found F0 c1) in *.
  assert (Hcs : crawled_urls cs = ∅) by (simpl; congruence).
  destruct (crawl_loop_spec E P (domain c) F0 b HP Hfair (Z.to_nat (max_pages cs)) _ cs Hd Hinv)
    as (n & tc & c' & evs & Hrun & Hinv' & Htest & Hd' & Hm' & Hp' & Hf' & Hc' &
        Hwb & Hsz & Hn & Ht & Hthr & Hnd & Hfe).
  { rewrite Hcs, size_empty. lia. }
  exists n, tc, c', evs.
  split.
  { unfold crawl_all, bind, get. rewrite Hseed. exact Hrun. }
  split; [done|]. split; [done|].
  split; [simpl in *; congruence|]. split; [simpl in *; congruence|].
  split; [simpl in *; congruence|].
  split.
  { intros Hpos. apply Hwb. unfold within_budget. rewrite Hcs, size_empty.
    simpl. lia. }
  split; [lia|].
  split.
  { rewrite Hcs, size_empty in Hn. simpl in Hn. rewrite Hm in Hn. lia. }
  split; [done|]. split; [done|]. split; [done|].
  intros u Hu. by apply Hfe.
Qed.

Lemma crawl_all_spec E (P : string -> Prop) c (S : gset string) c1 :
  (forall url c, result_all P (crawl_page_fetch E url c).1) ->
  fair_order E ->
  crawled_urls c = ∅ ->
  fetch_sitemap_urls E c = (Returned S, c1) ->
  let b := base_url c in
  let F0 := found_urls c ∪ S ∪ {[ b ]} in
  exists n (to_crawl : gset string) c' evs,
    crawl_all E c = (Returned (Some (n, to_crawl)), c') /\
    loop_inv P F0 b to_crawl c' /\
    loop_test c' to_crawl = false /\
    domain c' = domain c /\ max_pages c' = max_pages c /\
    policy_urls c' = policy_urls c /\
    (0 <= max_pages c -> within_budget c') /\
    (n <= size (crawled_urls c'))%nat /\
    (n <= Z.to_nat (max_pages c))%nat /\
    trace c' = (trace c1 ++ evs)%list /\
    Forall through_fetcher evs /\
    NoDup (fetches evs) /\
    (forall u, u ∈ fetches evs -> u ∈ crawled_urls c').
Proof.
  intros HP. apply (crawl_all_spec_in E P); auto.
Qed.

(** ** The frontier and the discovered set when crawling starts *)

(** C1, as stated: on the sample site the sitemap lists pages, the frontier
    at the start of the loop holds the homepage only, and the crawl ends
    with an empty frontier without having crawled the listed page. *)
Lemma seed_frontier_not_union :
  let c0 := init Demo.shop 500 in
  let listed : gset string :=
    {[ "https://shop.example/pages/return-policy";
       "https://shop.example/help?x=1"; "https://shop.example/help?x=2" ]} in
  (fetch_sitemap_urls Demo.site c0).1 = Returned listed /\
  (seed Demo.site c0).1 = Returned {[ Demo.home ]} /\
  ({[ Demo.home ]} : gset string) <> {[ Demo.home ]} ∪ listed /\
  (crawl_all Demo.site c0).1 = Returned (Some (3%nat, ∅)) /\
  "https://shop.example/pages/return-policy" ∉ crawled_urls (crawl_all Demo.site c0).2.
Proof.
  intros c0 listed.
  split; [by vm_compute|]. split; [by vm_compute|].
  split.
  { intros Heq.
    assert (H : "https://shop.example/pages/return-policy" ∈ ({[ Demo.home ]} : gset string)).
    { rewrite Heq. unfold listed. set_solver. }
    by apply elem_of_singleton in H. }
  split; [by vm_compute|].
  apply (bool_decide_unpack _). by vm_compute.
Qed.

(** C1, amended: when the loop starts the frontier is the homepage URL
    alone, and the discovered set is what it was before (empty for a fresh
    crawler) joined with the filtered sitemap URLs and the homepage URL.
    The sitemap URLs are discovered, not queued: in a session of a fresh
    crawler a page other than the homepage is crawled only if it was not in
    the discovered set when the loop started. *)
Theorem seed_frontier_is_homepage (E : env) (c c' : crawler) (to_crawl : gset string) :
  seed E c = (Returned to_crawl, c') ->
  exists (sitemap_urls : gset string) c1,
    fetch_sitemap_urls E c = (Returned sitemap_urls, c1) /\
    to_crawl = {[ base_url c ]} /\
    found_urls c' = found_urls c ∪ sitemap_urls ∪ {[ base_url c ]} /\
    (fair_order E -> crawled_urls c = ∅ ->
     forall u, u ∈ crawled_urls (crawl_all E c).2 ->
               u = base_url c \/ u ∉ found_urls c ∪ sitemap_urls).
Proof.
  intros Hseed. pose proof (seed_spec E c) as Hs.
  destruct (fetch_sitemap_urls E c) as [[sm|] c1] eqn:Hfs; [|congruence].
  rewrite Hseed in Hs. injection Hs as -> ->.
  exists sm, c1. split; [done|]. split; [done|]. split; [done|].
  intros Hfair Hc u Hu.
  destruct (crawl_all_spec E no_query_fragment c sm c1
              (crawl_page_fetch_clean E) Hfair Hc Hfs)
    as (n & tc & cf & evs & Hrun & Hinv & _).
  rewrite Hrun in Hu. simpl in Hu.
  destruct (inv_origin _ _ _ _ _ Hinv u) as [->|Hout]; [set_solver | by left |].
  right. set_solver.
Qed.

Lemma seed_frontier_is_homepage_witness :
  let c := init Demo.shop 500 in
  exists (sitemap_urls : gset string) c1,
    fetch_sitemap_urls Demo.site c = (Returned sitemap_urls, c1) /\
    ({[ Demo.home ]} : gset string) = {[ base_url c ]} /\
    found_urls (seed Demo.site c).2 = found_urls c ∪ sitemap_urls ∪ {[ base_url c ]} /\
    (fair_order Demo.site -> crawled_urls c = ∅ ->
     forall u, u ∈ crawled_urls (crawl_all Demo.site c).2 ->
               u = base_url c \/ u ∉ found_urls c ∪ sitemap_urls).
Proof.
  intros c.
  apply (seed_frontier_is_homepage Demo.site c (seed Demo.site c).2 {[ Demo.home ]}).
  vm_compute. reflexivity.
Defined.

(** ** The dedup property *)

Lemma strip_clean u : no_query_fragment u -> strip_query_fragment u = u.
Proof.
  intros [Hq Hf]. induction u as [|a u IH]; [done|].
  cbn [Py.has_char strip_query_fragment] in *.
  apply orb_false_elim in Hq as [Hq1 Hq2]. apply orb_false_elim in Hf as [Hf1 Hf2].
  rewrite Ascii.eqb_sym in Hq1. rewrite Ascii.eqb_sym in Hf1.
  rewrite Hq1, Hf1. cbn [orb]. f_equal. by apply IH.
Qed.

(** C4, as stated: after the crawl of the sample site the discovered set
    holds two URLs from the sitemap that differ only in their query. *)
Lemma found_urls_not_deduplicated :
  ~ deduplicated (found_urls (crawl_all Demo.site (init Demo.shop 500)).2).
Proof.
  intros H.
  apply (H "https://shop.example/help?x=1" "https://shop.example/help?x=2").
  - apply (bool_decide_unpack _). by vm_compute.
  - apply (bool_decide_unpack _). by vm_compute.
  - split; [discriminate | by vm_compute].
Qed.

(** C4, amended: every URL that link extraction yields has its query and
    fragment stripped, and two such URLs never differ only in fragment or
    query.  URLs from sitemap parsing enter the discovered set as the
    sitemap lists them and the homepage URL as it is formed: in a session of
    a fresh crawler every discovered URL with a query or a fragment was in
    the set when the loop started, and of two discovered URLs that differ
    only in fragment or query at least one was. *)
Theorem link_extraction_strips_query_fragment (E : env) :
  (forall self html_content base u,
     u ∈ extract_links_from_html E self html_content base -> no_query_fragment u) /\
  (forall u v, no_query_fragment u -> no_query_fragment v ->
               ~ differ_only_in_query_fragment u v) /\
  (forall c (sitemap_urls : gset string) c1,
     fair_order E -> crawled_urls c = ∅ ->
     fetch_sitemap_urls E c = (Returned sitemap_urls, c1) ->
     let seeded := found_urls c ∪ sitemap_urls ∪ {[ base_url c ]} in
     let found := found_urls (crawl_all E c).2 in
     (forall u, u ∈ found -> u ∈ seeded \/ no_query_fragment u) /\
     (forall u v, u ∈ found -> v ∈ found -> differ_only_in_query_fragment u v ->
                  u ∈ seeded \/ v ∈ seeded)).
Proof.
  split; [apply extract_links_clean|].
  assert (Hdiff : forall u v, no_query_fragment u -> no_query_fragment v ->
                              ~ differ_only_in_query_fragment u v).
  { intros u v Hu Hv [Hne Heq]. rewrite !strip_clean in Heq by done. done. }
  split; [exact Hdiff|].
  intros c sm c1 Hfair Hc Hfs seeded found.
  destruct (crawl_all_spec E no_query_fragment c sm c1
              (crawl_page_fetch_clean E) Hfair Hc Hfs)
    as (n & tc & cf & evs & Hrun & Hinv & _).
  assert (Hcl : forall u, u ∈ found -> u ∈ seeded \/ no_query_fragment u).
  { intros u Hu. unfold found in Hu. rewrite Hrun in Hu.
    by apply (inv_clean _ _ _ _ _ Hinv). }
  split; [exact Hcl|].
  intros u v Hu Hv Hd.
  destruct (Hcl u Hu) as [?|Hcu]; [by left|].
  destruct (Hcl v Hv) as [?|Hcv]; [by right|].
  by destruct (Hdiff u v Hcu Hcv).
Qed.

Lemma fair_elements (E : env) :
  (forall n s, set_order E n s = elements s) -> fair_order E.
Proof. intros H n s. by rewrite H. Qed.

Lemma link_extraction_strips_query_fragment_witness :
  let c := init Demo.shop 500 in
  let listed : gset string :=
    {[ "https://shop.example/pages/return-policy";
       "https://shop.example/help?x=1"; "https://shop.example/help?x=2" ]} in
  let seeded := found_urls c ∪ listed ∪ {[ base_url c ]} in
  let found := found_urls (crawl_all Demo.site c).2 in
  (forall u, u ∈ found -> u ∈ seeded \/ no_query_fragment u) /\
  (forall u v, u ∈ found -> v ∈ found -> differ_only_in_query_fragment u v ->
               u ∈ seeded \/ v ∈ seeded).
Proof.
  intros c listed.
  refine (proj2 (proj2 (link_extraction_strips_query_fragment Demo.site))
            c listed (fetch_sitemap_urls Demo.site c).2 _ _ _).
  - apply fair_elements. reflexivity.
  - reflexivity.
  - vm_compute. reflexivity.
Defined.

(** ** Termination of the crawl loop *)

(** C5, as stated: with a page budget of 2 and batches of 10 the bound
    would be one turn; on the sample site the loop takes two, because the
    frontier holds a single URL at each turn. *)
Lemma crawl_loop_exceeds_ceiling :
  exists n (to_crawl : gset string),
    (crawl_all Demo.site (init Demo.shop 2)).1 = Returned (Some (n, to_crawl)) /\
    (ceil_div (Z.to_nat 2) 10 < n)%nat.
Proof.
  exists 2%nat, {[ "https://shop.example/shipping" ]}.
  split; [by vm_compute|]. vm_compute. lia.
Qed.

(** C5, amended: for every page budget and however the frontier regrows,
    the loop of a session ends within [pageBudget] turns (none when the
    budget is not positive): a turn takes up to 10 URLs, as many as the
    frontier holds, and crawls at least one new page. *)
Theorem crawl_loop_terminates_within_budget (E : env) (c c1 : crawler)
    (sitemap_urls : gset string) :
  fair_order E ->
  crawled_urls c = ∅ ->
  fetch_sitemap_urls E c = (Returned sitemap_urls, c1) ->
  exists n (to_crawl : gset string) c',
    crawl_all E c = (Returned (Some (n, to_crawl)), c') /\
    loop_test c' to_crawl = false /\
    (n <= Z.to_nat (max_pages c))%nat /\
    (n <= size (crawled_urls c'))%nat.
Proof.
  intros Hfair Hc Hfs.
  destruct (crawl_all_spec E no_query_fragment c sitemap_urls c1
              (crawl_page_fetch_clean E) Hfair Hc Hfs)
    as (n & tc & cf & evs & Hrun & _ & Htest & _ & _ & _ & _ & Hsz & Hn & _).
  by exists n, tc, cf.
Qed.

Lemma crawl_loop_terminates_within_budget_witness :
  let c := init Demo.shop 2 in
  exists n (to_crawl : gset string) c',
    crawl_all Demo.site c = (Returned (Some (n, to_crawl)), c') /\
    loop_test c' to_crawl = false /\
    (n <= Z.to_nat (max_pages c))%nat /\
    (n <= size (crawled_urls c'))%nat.
Proof.
  intros c.
  refine (crawl_loop_terminates_within_budget Demo.site c
            (fetch_sitemap_urls Demo.site c).2
            {[ "https://shop.example/pages/return-policy";
               "https://shop.example/help?x=1"; "https://shop.example/help?x=2" ]}
            _ _ _).
  - apply fair_elements. reflexivity.
  - reflexivity.
  - vm_compute. reflexivity.
Defined.

(** ** The page budget *)

Lemma crawl_page_spec E url c :
  (url ∈ crawled_urls c -> crawl_page E url c = (Returned ∅, c)) /\
  crawled_urls c ⊆ crawled_urls (crawl_page E url c).2 /\
  (within_budget c -> within_budget (crawl_page E url c).2).
Proof.
  unfold crawl_page, bind.
  destruct (crawl_page_enter_spec url c) as [[-> Hskip]|(-> & Hfresh & Hroom)].
  - unfold ret. simpl. done.
  - pose proof (crawl_page_fetch_quiet E url (set_crawled (crawled_urls c ∪ {[url]}) c)) as Hq.
    destruct (crawl_page_fetch E url _) as [r c']. simpl in *.
    destruct Hq as [Hd Hm Hp Hf Hc]. simpl in *.
    split; [done|]. split; [rewrite Hc; set_solver|].
    intros _. unfold within_budget. rewrite Hc, Hm. simpl.
    rewrite size_add_fresh by done. lia.
Qed.

(** C6: the crawled-count never decreases and stays within the page budget,
    task by task and turn by turn; the tests and insertions of the tasks of
    a batch run one after the other, so a batch cannot overshoot.  A session
    ends with the frontier empty or the count equal to the budget; with a
    budget of 5 on a site whose frontier grows faster than it drains the
    loop stops with 5 pages crawled and 4 URLs left in the frontier.  A URL
    in the crawled set is not fetched again: [crawl_page] returns without a
    request, and the fetches of a session's loop are pairwise distinct. *)
Theorem crawled_count_within_budget (E : env) (c c1 : crawler)
    (sitemap_urls : gset string) :
  fair_order E ->
  crawled_urls c = ∅ ->
  0 <= max_pages c ->
  fetch_sitemap_urls E c = (Returned sitemap_urls, c1) ->
  (forall url k,
     (url ∈ crawled_urls k -> crawl_page E url k = (Returned ∅, k)) /\
     crawled_urls k ⊆ crawled_urls (crawl_page E url k).2 /\
     (within_budget k -> within_budget (crawl_page E url k).2)) /\
  (forall (to_crawl : gset string) k,
     crawled_urls k ⊆ crawled_urls (crawl_batch E to_crawl k).2 /\
     (within_budget k -> within_budget (crawl_batch E to_crawl k).2)) /\
  (exists n (to_crawl : gset string) c' evs,
     crawl_all E c = (Returned (Some (n, to_crawl)), c') /\
     within_budget c' /\
     (to_crawl = ∅ \/ Z.of_nat (size (crawled_urls c')) = max_pages c) /\
     trace c' = (trace c1 ++ evs)%list /\
     NoDup (fetches evs) /\
     (forall u, u ∈ fetches evs -> u ∈ crawled_urls c')) /\
  (exists (to_crawl : gset string) c',
     crawl_all Demo.tree (init Demo.shop 5) = (Returned (Some (3%nat, to_crawl)), c') /\
     size (crawled_urls c') = 5%nat /\
     size to_crawl = 4%nat /\
     size (found_urls c') = 11%nat).
Proof.
  intros Hfair Hc Hpos Hfs.
  split; [intros url k; apply crawl_page_spec|].
  split.
  { intros tc k.
    destruct (crawl_batch_spec E no_query_fragment tc k (crawl_page_fetch_clean E) Hfair)
      as (B & Ent & N & k' & evs & Hrun & _ & _ & _ & _ & _ & _ & _ & Hcr & _ & _ & Hwb & _).
    rewrite Hrun. simpl. split; [rewrite Hcr; set_solver | done]. }
  split.
  { destruct (crawl_all_spec E no_query_fragment c sitemap_urls c1
              (crawl_page_fetch_clean E) Hfair Hc Hfs)
      as (n & tc & cf & evs & Hrun & Hinv & Htest & Hd & Hm & Hp & Hwb & Hsz & Hn &
          Ht & Hthr & Hnd & Hfe).
    exists n, tc, cf, evs. split; [done|]. split; [by apply Hwb|].
    split; [|done].
    specialize (Hwb Hpos). unfold within_budget in Hwb. unfold loop_test in Htest.
    apply andb_false_iff in Htest as [H1|H2].
    - left. apply negb_false_iff, bool_decide_eq_true in H1. done.
    - right. apply Z.ltb_ge in H2. lia. }
  eexists _, _. split; [by vm_compute|]. by vm_compute.
Qed.

Lemma crawled_count_within_budget_witness :
  let c := init Demo.shop 5 in
  exists n (to_crawl : gset string) c' evs,
    crawl_all Demo.tree c = (Returned (Some (n, to_crawl)), c') /\
    within_budget c' /\
    (to_crawl = ∅ \/ Z.of_nat (size (crawled_urls c')) = max_pages c) /\
    trace c' = (trace (fetch_sitemap_urls Demo.tree c).2 ++ evs)%list /\
    NoDup (fetches evs) /\
    (forall u, u ∈ fetches evs -> u ∈ crawled_urls c').
Proof.
  intros c.
  refine (proj1 (proj2 (proj2
            (crawled_count_within_budget Demo.tree c
               (fetch_sitemap_urls Demo.tree c).2 ∅ _ _ _ _)))).
  - apply fair_elements. reflexivity.
  - reflexivity.
  - vm_compute. discriminate.
  - vm_compute. reflexivity.
Defined.

(** ** Who issues the requests *)



Lemma for_sitemaps_same_rate E ls urls : keeps same_rate (for_sitemaps E ls urls).
Proof. by apply (keeps_for_sitemaps same_rate E (fun _ => True)). Qed.





(** ** Ranking *)

Lemma code_inj a b : Py.code a = Py.code b -> a = b.
Proof.
  unfold Py.code. intros H.
  rewrite <- (ascii_nat_embedding a), <- (ascii_nat_embedding b). by rewrite H.
Qed.

Lemma str_le_refl s : Py.str_le s s = true.
Proof. induction s as [|a s IH]; simpl; [done|]. by rewrite Nat.ltb_irrefl. Qed.

Lemma str_le_total s t : Py.str_le s t = true \/ Py.str_le t s = true.
Proof.
  revert t. induction s as [|a s IH]; intros [|b t]; simpl; auto.
  destruct (Nat.ltb_spec (Py.code a) (Py.code b)); [auto|].
  destruct (Nat.ltb_spec (Py.code b) (Py.code a)); [auto|]. apply IH.
Qed.

Lemma str_le_antisym s t : Py.str_le s t = true -> Py.str_le t s = true -> s = t.
Proof.
  revert t. induction s as [|a s IH]; intros [|b t]; simpl; try done.
  destruct (Nat.ltb_spec (Py.code a) (Py.code b)) as [Hab|Hab];
    destruct (Nat.ltb_spec (Py.code b) (Py.code a)) as [Hba|Hba]; try done; try lia.
  intros H1 H2. f_equal; [apply code_inj; lia | by apply IH].
Qed.

Lemma str_le_trans s t u :
  Py.str_le s t = true -> Py.str_le t u = true -> Py.str_le s u = true.
Proof.
  revert t u. induction s as [|a s IH]; intros [|b t] [|c u]; simpl; try done.
  repeat match goal with
         | |- context [Nat.ltb ?x ?y] => destruct (Nat.ltb_spec x y)
         end;
    try done; try (intros; lia).
  apply IH.
Qed.

Global Instance key_le_total : Total key_le.
Proof.
  intros [s1 u1] [s2 u2]. unfold key_le. simpl.
  destruct (Z.lt_total (- s1) (- s2)) as [?|[?|?]]; auto.
  destruct (str_le_total u1 u2); auto.
Qed.

Global Instance key_le_trans : Transitive key_le.
Proof.
  intros [s1 u1] [s2 u2] [s3 u3]. unfold key_le. simpl.
  intros [?|[? ?]] [?|[? ?]]; try (left; lia).
  right. split; [lia|]. by eapply str_le_trans.
Qed.

Global Instance rank_before_antisym : AntiSymm (=) rank_before.
Proof.
  intros u v [?|[? ?]] [?|[? ?]]; try lia. by apply str_le_antisym.
Qed.

Lemma score_all_spec order : forall policy,
  score_all order policy =
  (policy ++ ((fun u => (score_url u, u)) <$> filter (fun u => 0 < score_url u) order))%list.
Proof.
  unfold score_all. induction order as [|u order IH]; intros policy; simpl.
  - by rewrite app_nil_r.
  - rewrite IH. destruct (Z.ltb_spec 0 (score_url u)).
    + rewrite filter_cons_True by done. by rewrite fmap_cons, <- app_assoc.
    + rewrite filter_cons_False by lia. done.
Qed.

Lemma sorted_keys_ranked (l : list (Z * string)) :
  StronglySorted key_le l ->
  Forall (fun x => x.1 = score_url x.2) l ->
  StronglySorted rank_before (l.*2).
Proof.
  induction 1 as [|x l Hs IH Hx]; intros HF; [constructor|].
  apply Forall_cons in HF as [Hx1 HF]. rewrite fmap_cons. constructor; [by apply IH|].
  apply Forall_fmap. apply Forall_forall. intros y Hy.
  rewrite Forall_forall in Hx, HF. specialize (Hx y Hy). specialize (HF y Hy).
  unfold key_le in Hx. unfold rank_before. simpl. rewrite <- Hx1, <- HF.
  destruct Hx as [?|[? ?]]; [left; lia | right; split; [lia | done]].
Qed.

Lemma scored_urls (l : list string) : ((fun u => (score_url u, u)) <$> l).*2 = l.
Proof. induction l as [|u l IH]; [done|]. rewrite !fmap_cons. simpl. by rewrite IH. Qed.

(** What step 3 returns for a crawler whose ranking list is still empty:
    the positive-scored URLs of the enumeration, in ranking order. *)
Lemma rank_spec E c :
  policy_urls c = [] ->
  exists ranked c',
    rank E c = (Returned ranked, c') /\
    found_urls c' = found_urls c /\
    ranked ≡ₚ filter (fun u => 0 < score_url u)
                (set_order E (List.length (trace c)) (found_urls c)) /\
    StronglySorted rank_before ranked.
Proof.
  intros Hp. unfold rank, bind, get, modify, ret. cbn [id]. simpl.
  rewrite Hp, score_all_spec. simpl.
  set (order := set_order E (List.length (trace c)) (found_urls c)).
  set (L := (fun u => (score_url u, u)) <$> filter (fun u => 0 < score_url u) order).
  eexists _, _. split; [done|]. split; [done|]. split.
  - unfold sort_policy. rewrite merge_sort_Permutation. unfold L.
    by rewrite scored_urls.
  - apply sorted_keys_ranked.
    + unfold sort_policy. apply StronglySorted_merge_sort; apply _.
    + apply Forall_forall. intros x Hx. unfold sort_policy in Hx.
      rewrite merge_sort_Permutation in Hx. unfold L in Hx.
      apply list_elem_of_fmap in Hx as (u & -> & _). done.
Qed.

Lemma ranked_filter_elements E n (found : gset string) ranked :
  fair_order E ->
  ranked ≡ₚ filter (fun u => 0 < score_url u) (set_order E n found) ->
  ranked ≡ₚ filter (fun u => 0 < score_url u) (elements found).
Proof. intros Hfair ->. by rewrite (Hfair n found). Qed.




(** The ranking holds exactly the discovered URLs with a positive score,
    each once, higher scores first and equal scores by ascending URL. *)
Theorem rank_sorted_positive (E : env) (c : crawler) :
  fair_order E ->
  policy_urls c = [] ->
  exists ranked c',
    rank E c = (Returned ranked, c') /\
    (forall u, u ∈ ranked <-> u ∈ found_urls c /\ 0 < score_url u) /\
    NoDup ranked /\
    StronglySorted rank_before ranked.
Proof.
  intros Hfair Hp.
  destruct (rank_spec E c Hp) as (ranked & c' & Hrank & Hf & Hperm & Hsorted).
  apply (ranked_filter_elements _ _ _ _ Hfair) in Hperm.
  exists ranked, c'. split; [done|]. split; [|split; [|done]].
  - intros u. rewrite Hperm, list_elem_of_filter, elem_of_elements. tauto.
  - rewrite Hperm. apply NoDup_filter, NoDup_elements.
Qed.

Lemma rank_sorted_positive_witness :
  let c := (crawl_all Demo.site (init Demo.shop 500)).2 in
  exists ranked c',
    rank Demo.site c = (Returned ranked, c') /\
    (forall u, u ∈ ranked <-> u ∈ found_urls c /\ 0 < score_url u) /\
    NoDup ranked /\
    StronglySorted rank_before ranked.
Proof.
  intros c. apply (rank_sorted_positive Demo.site c).
  - apply fair_elements. reflexivity.
  - vm_compute. reflexivity.
Defined.

(** The ranking depends on the discovered set alone: whatever the order in
    which the set is enumerated, and whatever else the two crawlers hold,
    step 3 returns the same list. *)
Theorem rank_independent_of_enumeration (E1 E2 : env) (c1 c2 : crawler) :
  fair_order E1 -> fair_order E2 ->
  policy_urls c1 = [] -> policy_urls c2 = [] ->
  found_urls c1 = found_urls c2 ->
  (rank E1 c1).1 = (rank E2 c2).1.
Proof.
  intros Hf1 Hf2 Hp1 Hp2 Hfound.
  destruct (rank_spec E1 c1 Hp1) as (r1 & c1' & -> & _ & Hperm1 & Hs1).
  destruct (rank_spec E2 c2 Hp2) as (r2 & c2' & -> & _ & Hperm2 & Hs2).
  apply (ranked_filter_elements _ _ _ _ Hf1) in Hperm1.
  apply (ranked_filter_elements _ _ _ _ Hf2) in Hperm2.
  simpl. f_equal. apply (StronglySorted_unique rank_before); try done.
  by rewrite Hperm1, Hperm2, Hfound.
Qed.

Lemma rank_independent_of_enumeration_witness :
  let c := (crawl_all Demo.site (init Demo.shop 500)).2 in
  (rank Demo.site c).1 = (rank (reversed Demo.site) c).1.
Proof.
  intros c. apply (rank_independent_of_enumeration Demo.site (reversed Demo.site) c c).
  - apply fair_elements. reflexivity.
  - intros n s. simpl. apply reverse_Permutation.
  - vm_compute. reflexivity.
  - vm_compute. reflexivity.
  - reflexivity.
Defined.

(** ** What [find_policy_links] gives its caller *)







(** ** A site that does not answer *)

Section Dead.

Variable E : env.
Hypothesis dead : forall n url, net E n url = Failure.







End Dead.



(** ** Which links are followed *)

Lemma eligible_domain k c u : domain k = domain c -> eligible k u = eligible c u.
Proof. intros H. unfold eligible, is_same_domain. by rewrite H. Qed.

Lemma eligible_parts self u :
  eligible self u = true ->
  is_same_domain self u = true /\ is_english_url u = true /\ is_us_url u = true.
Proof.
  unfold eligible. intros [[H1 H2]%andb_true_iff H3]%andb_true_iff. done.
Qed.

Lemma collect_links_eligible E self base hrefs : forall links,
  (forall u, u ∈ links ->
     eligible self u = true /\ (u ∉ crawled_urls self) /\ no_query_fragment u) ->
  forall u, u ∈ collect_links E self base hrefs links ->
    eligible self u = true /\ (u ∉ crawled_urls self) /\ no_query_fragment u.
Proof.
  induction hrefs as [|href hrefs IH]; intros links Hl; simpl; [done|].
  destruct (Py.truthy href); [|by apply IH].
  destruct (urljoin E base href) as [full|]; [|done].
  destruct (clean_url full) as [clean|] eqn:Hc; [|done].
  destruct (eligible self clean && bool_decide (clean ∉ crawled_urls self))%bool eqn:Hok;
    [|by apply IH].
  apply andb_true_iff in Hok as [He Hn]. apply bool_decide_eq_true in Hn.
  apply IH. intros u [Hu|Hu]%elem_of_union; [by apply Hl|].
  apply elem_of_singleton in Hu as ->.
  split; [done|]. split; [done|]. by eapply clean_url_no_query_fragment.
Qed.

(** Every link that [extract_links_from_html] returns belongs to the target
    domain (by the substring test on the host), carries no non-English
    locale and no foreign region marker, has not been crawled yet and has no
    query and no fragment; a document that does not parse yields no link. *)
Theorem extract_links_eligible (E : env) (self : crawler) (html_content base u : string) :
  u ∈ extract_links_from_html E self html_content base ->
  html_hrefs E html_content <> None /\
  is_same_domain self u = true /\
  is_english_url u = true /\
  is_us_url u = true /\
  (u ∉ crawled_urls self) /\
  no_query_fragment u.
Proof.
  unfold extract_links_from_html.
  destruct (html_hrefs E html_content) as [hrefs|] eqn:Hh; [|set_solver].
  intros Hu. split; [done|].
  destruct (collect_links_eligible E self base hrefs ∅) with (u := u)
    as (He & Hn & Hc); [set_solver | done |].
  destruct (eligible_parts _ _ He) as (H1 & H2 & H3). done.
Qed.

Lemma extract_links_eligible_witness :
  let self := init Demo.shop 5 in
  let u := "https://shop.example/help/faq" in
  html_hrefs Demo.site "HOME" <> None /\
  is_same_domain self u = true /\
  is_english_url u = true /\
  is_us_url u = true /\
  (u ∉ crawled_urls self) /\
  no_query_fragment u.
Proof.
  intros self u.
  apply (extract_links_eligible Demo.site self "HOME" Demo.home u).
  apply (bool_decide_unpack _). by vm_compute.
Defined.




(** ** The fetcher outside the 429 case *)

(** When the first response is not a 429, [fetch_url] makes that one
    request and no other: it returns the text of a 200 and nothing for any
    other status or for a failed request, and it leaves the delays of the
    hosts as they were. *)
Theorem fetch_url_single_request (E : env) (url host : string) (c c1 : crawler) :
  rate_limit E url (log (EvFetch url) c) = (Returned host, c1) ->
  status_of (net E (List.length (trace c1)) url) <> 429 ->
  fetch_url E url c =
    (Returned (outcome_of (net E (List.length (trace c1)) url)),
     log (EvGet FetchUrl url) c1) /\
  request_delays (fetch_url E url c).2 = request_delays c.
Proof.
  intros Hrl Hst.
  destruct (rate_limit_returned E _ _ _ _ Hrl) as (_ & Hd & _).
  assert (Hreq : request E host url c1 =
                 (Returned (outcome_of (net E (List.length (trace c1)) url)),
                  log (EvGet FetchUrl url) c1)).
  { unfold request, try_except, bind, client_get. rewrite outcome_of_spec.
    destruct (net E (List.length (trace c1)) url) as [s h t b|] eqn:Hnet;
      simpl in Hst |- *; [|done].
    apply Z.eqb_neq in Hst. rewrite Hst. unfold ret. simpl.
    by destruct (s =? 200). }
  rewrite fetch_url_unfold, Hrl, Hreq. split; [done|]. simpl. exact Hd.
Qed.

Lemma fetch_url_single_request_witness :
  let url := "https://shop.example/a" in
  let c := init Demo.shop 5 in
  let c1 := (rate_limit Demo.site url (log (EvFetch url) c)).2 in
  fetch_url Demo.site url c =
    (Returned (outcome_of (net Demo.site (List.length (trace c1)) url)),
     log (EvGet FetchUrl url) c1) /\
  request_delays (fetch_url Demo.site url c).2 = request_delays c.
Proof.
  intros url c c1.
  apply (fetch_url_single_request Demo.site url "shop.example" c c1).
  - vm_compute. reflexivity.
  - vm_compute. discriminate.
Defined.



(** ** What the sitemap reader returns *)

Lemma add_locs_spec self ls : forall urls,
  urls ⊆ add_locs self ls urls /\
  (forall u, u ∈ add_locs self ls urls ->
             u ∈ urls \/ (eligible self u = true /\ u <> EmptyString)).
Proof.
  unfold add_locs. induction ls as [|loc ls IH]; intros urls; simpl; [by split; auto|].
  destruct (Py.truthy (Py.strip loc) && eligible self (Py.strip loc))%bool eqn:Hok.
  - destruct (IH (urls ∪ {[Py.strip loc]})) as [Hsub Hin]. split; [set_solver|].
    intros u Hu. destruct (Hin u Hu) as [[?|Hs%elem_of_singleton]%elem_of_union|?]; auto.
    subst u. apply andb_true_iff in Hok as [Ht He]. right. split; [done|].
    by destruct (Py.strip loc).
  - apply IH.
Qed.

Section SitemapResult.

Variable E : env.
Variable c0 : crawler.

Lemma grown_refl urls : grown c0 urls urls.
Proof. split; auto. Qed.

Lemma grown_trans a b c : grown c0 a b -> grown c0 b c -> grown c0 a c.
Proof.
  intros [H1 H2] [H3 H4]. split; [set_solver|].
  intros u Hu. destruct (H4 u Hu) as [Hb|?]; auto.
Qed.

Lemma for_nested_result rec sitemap_url ls :
  (forall u s, keeps quiet (rec u s)) ->
  (forall u s k, domain k = domain c0 ->
                 exists r, (rec u s k).1 = Returned r /\ grown c0 s r) ->
  forall urls c, domain c = domain c0 ->
    exists r, (for_nested rec sitemap_url ls urls c).1 = Returned r /\ grown c0 urls r.
Proof.
  intros Hq Hrec. induction ls as [|l ls IH]; intros urls c Hdom; cbn [for_nested].
  - exists urls. split; [done | apply grown_refl].
  - destruct (_ && _)%bool; [|by apply IH].
    unfold bind. destruct (Hrec (Py.strip l) urls c Hdom) as (r1 & Hr1 & Hg1).
    pose proof (Hq (Py.strip l) urls c) as Hqc.
    destruct (rec (Py.strip l) urls c) as [o c1]. simpl in Hr1, Hqc. subst o.
    destruct (IH r1 c1) as (r & Hr & Hg); [by rewrite (quiet_domain _ _ Hqc)|].
    exists r. split; [done|]. by eapply grown_trans.
Qed.

Lemma process_sitemap_result depth : forall sitemap_url urls c,
  domain c = domain c0 ->
  exists r, (process_sitemap E depth sitemap_url urls c).1 = Returned r /\ grown c0 urls r.
Proof.
  induction depth as [|depth IH]; intros sitemap_url urls c Hdom.
  - exists urls. split; [done | apply grown_refl].
  - cbn [process_sitemap]. unfold try_except, bind at 1, client_get.
    destruct (net E (List.length (trace c)) sitemap_url) as [s h t b|];
      [|exists urls; split; [done | apply grown_refl]].
    cbv beta iota.
    destruct (negb (status_of (Response s h t b) =? 200)).
    { exists urls. split; [done | apply grown_refl]. }
    unfold bind at 1, of_option.
    destruct (xml_parse E _) as [root|];
      [|exists urls; split; [done | apply grown_refl]].
    unfold ret at 1, bind at 1, get. cbn [id].
    set (k := log (EvGet ProcessSitemap sitemap_url) c).
    destruct (for_nested_result (process_sitemap E depth) sitemap_url (sitemap_locs root)
                (fun u s => process_sitemap_quiet E depth u s) IH
                (add_locs k (locs root) urls) k Hdom) as (r & Hr & Hg).
    assert (Hg0 : grown c0 urls (add_locs k (locs root) urls)).
    { destruct (add_locs_spec k (locs root) urls) as [Hs Hin]. split; [done|].
      intros u Hu. destruct (Hin u Hu) as [?|[He ?]]; auto. right.
      rewrite <- (eligible_domain k c0 u) by exact Hdom. done. }
    exists r. split; [|by eapply grown_trans].
    destruct (for_nested _ _ _ _ k) as [o k']. simpl in Hr. by subst o.
Qed.

Lemma for_sitemaps_result ls : forall urls c,
  domain c = domain c0 ->
  exists r, (for_sitemaps E ls urls c).1 = Returned r /\ grown c0 urls r.
Proof.
  induction ls as [|l ls IH]; intros urls c Hdom; cbn [for_sitemaps].
  - exists urls. split; [done | apply grown_refl].
  - unfold bind.
    destruct (process_sitemap_result (S (recursion_limit E)) l urls c Hdom)
      as (r1 & Hr1 & Hg1).
    pose proof (process_sitemap_quiet E (S (recursion_limit E)) l urls c) as Hq.
    destruct (process_sitemap E (S (recursion_limit E)) l urls c) as [o c1].
    simpl in Hr1, Hq. subst o.
    destruct (IH r1 c1) as (r & Hr & Hg); [by rewrite (quiet_domain _ _ Hq)|].
    exists r. split; [done|]. by eapply grown_trans.
Qed.

End SitemapResult.

(** Every URL that [fetch_sitemap_urls] returns passed the classifier (its
    host contains the target domain, no non-English locale, no foreign
    region marker) and is not empty: unfit [loc] entries are dropped,
    whichever sitemap, nested or not, lists them. *)
Theorem sitemap_urls_eligible (E : env) (c c1 : crawler) (sitemap_urls : gset string)
    (u : string) :
  fetch_sitemap_urls E c = (Returned sitemap_urls, c1) ->
  u ∈ sitemap_urls ->
  is_same_domain c u = true /\ is_english_url u = true /\ is_us_url u = true /\
  u <> EmptyString.
Proof.
  unfold fetch_sitemap_urls, bind, get. cbn [id].
  pose proof (fetch_url_quiet E (base_url c ++ "/robots.txt") c) as Hq.
  destruct (fetch_url E (base_url c ++ "/robots.txt") c) as [[robots|] k]; [|done].
  simpl in Hq.
  match goal with |- for_sitemaps E ?ls ∅ k = _ -> _ =>
    destruct (for_sitemaps_result E c ls ∅ k (quiet_domain _ _ Hq)) as (r & Hr & _ & Hg);
    destruct (for_sitemaps E ls ∅ k) as [o k'] end.
  simpl in Hr. subst o. intros [= <- <-] Hu.
  destruct (Hg u Hu) as [Hin|[He Hne]]; [set_solver|].
  destruct (eligible_parts _ _ He) as (H1 & H2 & H3). done.
Qed.

Lemma sitemap_urls_eligible_witness :
  let c := init Demo.shop 500 in
  let u := "https://shop.example/pages/return-policy" in
  is_same_domain c u = true /\ is_english_url u = true /\ is_us_url u = true /\
  u <> EmptyString.
Proof.
  intros c u.
  refine (sitemap_urls_eligible Demo.site c (fetch_sitemap_urls Demo.site c).2
            {[ "https://shop.example/pages/return-policy";
               "https://shop.example/help?x=1"; "https://shop.example/help?x=2" ]}
            u _ _).
  - vm_compute. reflexivity.
  - set_solver.
Defined.
